(** * whear-mobile: the "Today" outfit picker

    A shallow embedding of the screen-level state of [HomeScreen], of the
    persisted store [todayCollectionStore], of the release decision of
    [SwipeableCard] and of the window computation of [ArcCarousel],
    together with the properties the specification states about them.

    Conventions of the embedding:
    - a JavaScript number used as an array index is a [Z]; reading an array
      at an index that is negative or past the end yields [undefined],
      here [None];
    - an optional boolean field ([isAccepted?: boolean]) is an
      [option bool], [None] standing for an absent field;
    - a handler is modelled on the state of the render that created it:
      React state, the [isProcessingRef] guard and the store are threaded
      as one record, and the body of each [setTimeout] callback is a
      transition of its own, scheduled in a queue of pending timers;
    - a JavaScript number that is not an index (a width, the [dx] and [dy]
      of a gesture, an animated value) is an IEEE 754 double, here Rocq's
      primitive [float], whose operations are the kernel's binary64 ones;
      a decimal literal denotes the nearest double, as it does in
      JavaScript. The opacities of the carousel are constants that are
      only stored and compared with each other; they are kept as the
      decimal fractions the source writes. *)

From Stdlib Require Import List ZArith QArith Lqa Floats Bool String Lia.
From Equations Require Import Equations.
Import ListNotations.

Set Warnings "-inexact-float".

Local Open Scope Z_scope.

(** ** JavaScript arrays *)

Module Js.

(** [arr[i]] for a numeric [i]. *)
Definition get {A : Type} (arr : list A) (i : Z) : option A :=
  if i <? 0 then None else nth_error arr (Z.to_nat i).

(** [arr.length]. *)
Definition length {A : Type} (arr : list A) : Z := Z.of_nat (List.length arr).

(** [arr.map((o, idx) => f(o, idx))], the index counted from [i]. *)
Fixpoint map_from {A B : Type} (f : A -> Z -> B) (i : Z) (arr : list A) : list B :=
  match arr with
  | [] => []
  | o :: rest => f o i :: map_from f (i + 1) rest
  end.

Definition mapi {A B : Type} (f : A -> Z -> B) (arr : list A) : list B :=
  map_from f 0 arr.

(** [arr.slice(0, -1)]. *)
Definition drop_last {A : Type} (arr : list A) : list A := removelast arr.

(** [arr[arr.length - 1]]. *)
Definition last_entry {A : Type} (arr : list A) : option A :=
  get arr (length arr - 1).

(** [s.replace(pat, by_)] with a string pattern: the first occurrence only. *)
Fixpoint replace_first (pat by_ s : string) : string :=
  if String.prefix pat s
  then String.append by_ (String.substring (String.length pat)
                                           (String.length s - String.length pat) s)
  else match s with
       | EmptyString => EmptyString
       | String c rest => String c (replace_first pat by_ rest)
       end.

(** The index arithmetic of [slice]: a negative index counts from the
    end, and both ends are clipped to the array. *)
Definition clamp_index (len i : Z) : Z :=
  if i <? 0 then Z.max (len + i) 0 else Z.min i len.

(** [arr.slice(start, end_)] for integral [start] and [end_]. *)
Definition slice {A : Type} (arr : list A) (start end_ : Z) : list A :=
  let len := length arr in
  let k := clamp_index len start in
  let final := clamp_index len end_ in
  firstn (Z.to_nat (Z.max (final - k) 0)) (skipn (Z.to_nat k) arr).

End Js.

(** ** The suggestion record ([OutfitSuggestion]) *)

Record OutfitSuggestion : Type := mkOutfit {
  id : string;
  imageUri : string;
  title : string;
  subtitle : string;
  handle : string;
  reason : string;
  bgGradient : string * string * string;
  isAccepted : option bool;
  isRejected : option bool
}.

(** [{ ...o, isAccepted: a, isRejected: r }]. *)
Definition with_flags (o : OutfitSuggestion) (a r : bool) : OutfitSuggestion :=
  {| id := id o; imageUri := imageUri o; title := title o;
     subtitle := subtitle o; handle := handle o; reason := reason o;
     bgGradient := bgGradient o;
     isAccepted := Some a; isRejected := Some r |}.

(** Truthiness of an optional boolean, as in [item.isAccepted && ...]. *)
Definition truthy (b : option bool) : bool :=
  match b with Some true => true | _ => false end.

(** ** The persisted collection ([todayCollectionStore]) *)

Module Store.

(** The [accepted] array; the initial value is the empty array. *)
Definition accepted_init : list OutfitSuggestion := [].

Definition has_id (i : string) (cur : list OutfitSuggestion) : bool :=
  existsb (fun x => String.eqb (id x) i) cur.

Definition addAccepted (outfit : OutfitSuggestion) (cur : list OutfitSuggestion)
  : list OutfitSuggestion :=
  if has_id (id outfit) cur then cur else outfit :: cur.

Definition removeAccepted (i : string) (cur : list OutfitSuggestion)
  : list OutfitSuggestion :=
  filter (fun x => negb (String.eqb (id x) i)) cur.

Definition clearAll (cur : list OutfitSuggestion) : list OutfitSuggestion := [].

(** The calls a client can make. *)
Inductive Call : Type :=
| CallAdd (outfit : OutfitSuggestion)
| CallRemove (i : string)
| CallClear.

Definition apply_call (cur : list OutfitSuggestion) (c : Call) : list OutfitSuggestion :=
  match c with
  | CallAdd outfit => addAccepted outfit cur
  | CallRemove i => removeAccepted i cur
  | CallClear => clearAll cur
  end.

Definition run (calls : list Call) (cur : list OutfitSuggestion) : list OutfitSuggestion :=
  fold_left apply_call calls cur.

(** Number of records bearing a given id. *)
Definition count_id (i : string) (cur : list OutfitSuggestion) : nat :=
  List.length (filter (fun x => String.eqb (id x) i) cur).

Definition unique_ids (cur : list OutfitSuggestion) : Prop :=
  NoDup (map id cur).

(** The store seen as a set of ids: how one call changes whether the id
    [i] is in it. *)
Definition member_step (i : string) (present : bool) (c : Call) : bool :=
  match c with
  | CallAdd outfit => String.eqb (id outfit) i || present
  | CallRemove j => negb (String.eqb j i) && present
  | CallClear => false
  end.

End Store.

(** ** The screen ([HomeScreen]) *)

Module Home.

Local Open Scope string_scope.

(** [img]: ask the image service for a narrower rendition. *)
Definition img (u : string) : string := Js.replace_first "w=1200" "w=900" u.

Definition suggestion (i uri t sub h r : string) (g : string * string * string)
  : OutfitSuggestion :=
  {| id := i; imageUri := uri; title := t; subtitle := sub; handle := h;
     reason := r; bgGradient := g; isAccepted := None; isRejected := None |}.

Definition mockOutfits : list OutfitSuggestion :=
  [ suggestion "1"
      (img "https://images.unsplash.com/photo-1520975916090-3105956dac38?w=1200&auto=format&fit=crop")
      "Body language" "with maya daryen" "@maya.daryen"
      "Hot day + Casual + Light fabric" ("#B9B0AC", "#C7C0BD", "#D8D6D3");
    suggestion "2"
      (img "https://images.unsplash.com/photo-1509631179647-0177331693ae?w=1200&auto=format&fit=crop")
      "Office Ready" "polished silhouette" "@workwear.daily"
      "Work day + Smart + Comfortable" ("#B7B1B2", "#CFC8C9", "#EAE6E6");
    suggestion "3"
      (img "https://images.unsplash.com/photo-1520975732144-442d66dffb6e?w=1200&auto=format&fit=crop")
      "Layered Comfort" "transitional fit" "@layers.club"
      "Cool day + Versatile + Layered" ("#B8B7B4", "#D2D1CD", "#F0EFEC");
    suggestion "4"
      (img "https://images.unsplash.com/photo-1520975867722-01286f6abf7d?w=1200&auto=format&fit=crop")
      "Bold Statement" "make an impact" "@bold.room"
      "Special + Bold + Confident" ("#B9B2B8", "#D4CFD6", "#F1EEF3");
    suggestion "5"
      (img "https://images.unsplash.com/photo-1520975747456-4097f9c2a5c2?w=1200&auto=format&fit=crop")
      "Evening Elegance" "date-night glow" "@night.edit"
      "Evening + Date + Elegant" ("#B5B2B0", "#CDC7C4", "#EEEAE7");
    suggestion "6"
      (img "https://images.unsplash.com/photo-1520975904416-6fd35a5a8e3a?w=1200&auto=format&fit=crop")
      "Summer Breeze" "light drape" "@summer.set"
      "Sunny + Casual + Airy" ("#B8C6D4", "#D5E0EA", "#F3F6FA");
    suggestion "7"
      (img "https://images.unsplash.com/photo-1520975833856-63c8c9e98a4a?w=1200&auto=format&fit=crop")
      "Street Clean" "quiet luxury" "@street.clean"
      "City + Neutral + Crisp" ("#B9B7C0", "#D7D5DF", "#F4F3F7");
    suggestion "8"
      (img "https://images.unsplash.com/photo-1520975747456-4097f9c2a5c2?w=1200&auto=format&fit=crop")
      "Minimalist Chic" "less is more" "@studio.line"
      "Any day + Minimal + Timeless" ("#BFC7D1", "#D7DCE3", "#F0F1F3") ].

Local Close Scope string_scope.

Inductive Action : Type := left | right.

Definition Action_eqb (a b : Action) : bool :=
  match a, b with
  | left, left | right, right => true
  | _, _ => false
  end.

(** An undo record, [{ index, action }]. *)
Record HistoryEntry : Type := mkEntry {
  index : Z;
  action : Action
}.

(** The two [setTimeout] callbacks of the screen, both with a delay of
    100 ms: the one of [onLeft]/[onRight] advances and releases the
    guard, the one of [undo] only releases it. *)
Inductive Timer : Type := AdvanceTimer | ReleaseTimer.

(** Everything the handlers read and write. *)
Record Screen : Type := mkScreen {
  outfits : list OutfitSuggestion;
  activeIndex : Z;
  history : list HistoryEntry;
  isProcessing : bool;                 (* isProcessingRef.current *)
  accepted : list OutfitSuggestion;    (* the store's array *)
  timers : list Timer                  (* pending timeouts, oldest first *)
}.

(** The first render: [useState(mockOutfits)], [useState(0)],
    [useState([])], [useRef(false)]. The store's content is whatever has
    been persisted. *)
Definition initial (items acc : list OutfitSuggestion) : Screen :=
  {| outfits := items; activeIndex := 0; history := [];
     isProcessing := false; accepted := acc; timers := [] |}.

Definition set_processing (b : bool) (s : Screen) : Screen :=
  {| outfits := outfits s; activeIndex := activeIndex s; history := history s;
     isProcessing := b; accepted := accepted s; timers := timers s |}.

Definition set_activeIndex (i : Z) (s : Screen) : Screen :=
  {| outfits := outfits s; activeIndex := i; history := history s;
     isProcessing := isProcessing s; accepted := accepted s; timers := timers s |}.

Definition goNext (s : Screen) : Screen :=
  set_activeIndex (Z.min (activeIndex s + 1) (Js.length (outfits s) - 1)) s.

(** The [map] callbacks of the three handlers. *)
Definition reject_by_id (current o : OutfitSuggestion) : OutfitSuggestion :=
  if String.eqb (id o) (id current) then with_flags o false true else o.

Definition accept_by_id (current o : OutfitSuggestion) : OutfitSuggestion :=
  if String.eqb (id o) (id current) then with_flags o true false else o.

Definition reset_at (i : Z) (o : OutfitSuggestion) (idx : Z) : OutfitSuggestion :=
  if idx =? i then with_flags o false false else o.

Definition onLeft (s : Screen) : Screen :=
  if isProcessing s then s
  else
    let s1 := set_processing true s in
    match Js.get (outfits s1) (activeIndex s1) with
    | None => set_processing false s1
    | Some current =>
        {| outfits := map (reject_by_id current) (outfits s1);
           activeIndex := activeIndex s1;
           history := history s1 ++ [ {| index := activeIndex s1; action := left |} ];
           isProcessing := isProcessing s1;
           accepted := accepted s1;
           timers := timers s1 ++ [AdvanceTimer] |}
    end.

Definition onRight (s : Screen) : Screen :=
  if isProcessing s then s
  else
    let s1 := set_processing true s in
    match Js.get (outfits s1) (activeIndex s1) with
    | None => set_processing false s1
    | Some current =>
        {| outfits := map (accept_by_id current) (outfits s1);
           activeIndex := activeIndex s1;
           history := history s1 ++ [ {| index := activeIndex s1; action := right |} ];
           isProcessing := isProcessing s1;
           accepted := Store.addAccepted current (accepted s1);
           timers := timers s1 ++ [AdvanceTimer] |}
    end.

Definition undo (s : Screen) : Screen :=
  if (Js.length (history s) =? 0) || isProcessing s then s
  else
    let s1 := set_processing true s in
    match Js.last_entry (history s1) with
    | None => s1   (* unreachable: the history is not empty *)
    | Some last =>
        match Js.get (outfits s1) (index last) with
        | None => set_processing false s1
        | Some item =>
            {| outfits := Js.mapi (reset_at (index last)) (outfits s1);
               activeIndex := index last;
               history := Js.drop_last (history s1);
               isProcessing := isProcessing s1;
               accepted := if Action_eqb (action last) right
                           then Store.removeAccepted (id item) (accepted s1)
                           else accepted s1;
               timers := timers s1 ++ [ReleaseTimer] |}
        end
    end.

(** [reset_at] with arbitrary flag values: what the two by-id callbacks
    amount to at the position of the outfit they look for. *)
Definition mark_at (i : Z) (a r : bool) (o : OutfitSuggestion) (idx : Z)
  : OutfitSuggestion :=
  if idx =? i then with_flags o a r else o.

(** [onItemPress] as passed to the carousel. *)
Definition onItemPress (i : Z) (s : Screen) : Screen :=
  if negb (isProcessing s) then set_activeIndex i s else s.

(** Bodies of the two timeout callbacks. *)
Definition swipe_timeout (s : Screen) : Screen :=
  set_processing false (goNext s).

Definition undo_timeout (s : Screen) : Screen :=
  set_processing false s.

Definition pop_timer (s : Screen) : Screen :=
  {| outfits := outfits s; activeIndex := activeIndex s; history := history s;
     isProcessing := isProcessing s; accepted := accepted s;
     timers := tl (timers s) |}.

(** The oldest pending timeout expires. *)
Definition fire (s : Screen) : Screen :=
  match timers s with
  | [] => s
  | AdvanceTimer :: _ => swipe_timeout (pop_timer s)
  | ReleaseTimer :: _ => undo_timeout (pop_timer s)
  end.

(** [next]: the ids handed to the history screen. *)
Definition acceptedIds (s : Screen) : list string :=
  map id (filter (fun o => truthy (isAccepted o)) (outfits s)).

(** Things that happen to the screen. *)
Inductive Event : Type :=
| SwipeLeft
| SwipeRight
| Undo
| GoNext
| ItemPress (i : Z)
| Timeout.

Definition step (e : Event) (s : Screen) : Screen :=
  match e with
  | SwipeLeft => onLeft s
  | SwipeRight => onRight s
  | Undo => undo s
  | GoNext => goNext s
  | ItemPress i => onItemPress i s
  | Timeout => fire s
  end.

(** The carousel only offers thumbnails of existing items. *)
Definition possible (e : Event) (s : Screen) : Prop :=
  match e with
  | ItemPress i => 0 <= i <= Js.length (outfits s) - 1
  | _ => True
  end.

Definition run (es : list Event) (s : Screen) : Screen :=
  fold_left (fun acc e => step e acc) es s.

Inductive reachable (s0 : Screen) : Screen -> Prop :=
| reach_init : reachable s0 s0
| reach_step : forall s e,
    reachable s0 s -> possible e s -> reachable s0 (step e s).

(** Index bounds of a state. *)
Definition in_range (n i : Z) : Prop := 0 <= i <= n - 1.

Definition bounded (s : Screen) : Prop :=
  in_range (Js.length (outfits s)) (activeIndex s) /\
  Forall (fun h => in_range (Js.length (outfits s)) (index h)) (history s).

(** While a handler call is in flight the active index holds an outfit. *)
Definition guarded_in_range (s : Screen) : Prop :=
  isProcessing s = true -> in_range (Js.length (outfits s)) (activeIndex s).

(** Not both flags at once. *)
Definition exclusive (o : OutfitSuggestion) : Prop :=
  ~ (isAccepted o = Some true /\ isRejected o = Some true).

(** Neither accepted nor rejected. *)
Definition undecided (o : OutfitSuggestion) : Prop :=
  truthy (isAccepted o) = false /\ truthy (isRejected o) = false.

(** The record with its two flags read as booleans: an absent flag and an
    explicit [false] are told apart by no reader of the array. *)
Definition normalise (o : OutfitSuggestion) : OutfitSuggestion :=
  with_flags o (truthy (isAccepted o)) (truthy (isRejected o)).

(** No handler call is in flight. *)
Definition idle (s : Screen) : Prop :=
  isProcessing s = false /\ timers s = [].

(** [s'] shows the arrays, the index and the collection of [s]. *)
Definition restored (s s' : Screen) : Prop :=
  outfits s' = outfits s /\ activeIndex s' = activeIndex s /\
  history s' = history s /\ accepted s' = accepted s.

(** The same, the flags of the outfits read as booleans. *)
Definition restored_upto_flags (s s' : Screen) : Prop :=
  map normalise (outfits s') = map normalise (outfits s) /\
  activeIndex s' = activeIndex s /\
  history s' = history s /\ accepted s' = accepted s.

(** The first render of the screen on a device that has persisted nothing. *)
Definition first_render : Screen := initial mockOutfits Store.accepted_init.

(** States no first render leads to, on which the null checks are taken. *)
Definition nothing_to_show : Screen := initial [] Store.accepted_init.

Definition dangling_record : Screen :=
  {| outfits := []; activeIndex := 0;
     history := [ {| index := 0; action := left |} ];
     isProcessing := false; accepted := Store.accepted_init; timers := [] |}.

(** The first suggestion has been accepted and the user is back on it:
    swipe right, let the transition end, press the first thumbnail. *)
Definition revisited : Screen :=
  run [SwipeRight; Timeout; ItemPress 0] first_render.

(** The record without its two flags: what no handler writes. *)
Definition sans_flags (o : OutfitSuggestion) : OutfitSuggestion :=
  with_flags o false false.

(** Either no handler call is in flight, or exactly one is and its
    timeout is the only one pending. *)
Definition settled (s : Screen) : Prop :=
  (isProcessing s = false /\ timers s = []) \/
  (isProcessing s = true /\ exists t, timers s = [t]).

Definition is_swipe (e : Event) : bool :=
  match e with
  | SwipeLeft | SwipeRight => true
  | _ => false
  end.

(** The action a swipe records. *)
Definition action_of (e : Event) : Action :=
  match e with
  | SwipeRight => right
  | _ => left
  end.

(** Each event followed by the end of its transition. *)
Definition with_timeouts (es : list Event) : list Event :=
  flat_map (fun e => [e; Timeout]) es.

(** Every outfit flagged as accepted has a record in the collection. *)
Definition flagged_are_persisted (s : Screen) : Prop :=
  forall o, In o (outfits s) -> truthy (isAccepted o) = true ->
            Store.has_id (id o) (accepted s) = true.

(** [active?.bgGradient ?? colors.backgroundGradient]. *)
Definition bg (backgroundGradient : string * string * string) (s : Screen)
  : string * string * string :=
  match Js.get (outfits s) (activeIndex s) with
  | Some active => bgGradient active
  | None => backgroundGradient
  end.

(** [outfits.slice(activeIndex, activeIndex + 2)]. *)
Definition visibleCards (s : Screen) : list OutfitSuggestion :=
  Js.slice (outfits s) (activeIndex s) (activeIndex s + 2).

Definition cardOffset : Z := 8.

(** The urls handed to [Image.prefetch]. *)
Definition prefetched (s : Screen) : list string :=
  map imageUri (Js.slice (outfits s) 0 5).

End Home.


(** ** JavaScript numbers *)

Module Num.

(** The sign bit is clear: neither a negative number nor [-0] ([NaN]
    counts as clear). *)
Definition sign_clear (x : spec_float) : bool :=
  match x with
  | S754_zero s | S754_infinity s | S754_finite s _ _ => negb s
  | S754_nan => true
  end.

(** [Math.min(a, b)]: [NaN] if either argument is, else the smaller one,
    [-0] counting as smaller than [+0]. *)
Definition Math_min (a b : float) : float :=
  if is_nan a || is_nan b then nan
  else if (a <? b)%float then a
  else if (b <? a)%float then b
  else match classify a with
       | NZero => a
       | _ => b
       end.

End Num.

(** ** The card's gesture handlers ([SwipeableCard]) *)

Module Card.

Local Open Scope float_scope.

Definition SWIPE_THRESHOLD (SCREEN_WIDTH : float) : float := SCREEN_WIDTH * 0.26.

(** The animated values of a card. *)
Inductive Value : Type := translateX | translateY | likeOpacity | nopeOpacity.

Inductive Animation : Type :=
| timing (v : Value) (toValue : float) (duration : Z)
| spring (v : Value) (toValue : float).

(** What a completion callback does. *)
Inductive Effect : Type :=
| setValue (v : Value) (x : float)
| handleSwipeLeft          (* calls [onSwipeLeft] *)
| handleSwipeRight.        (* calls [onSwipeRight] *)

(** [Animated.parallel(animations).start(on_complete)]. *)
Record Started : Type := mkStarted {
  animations : list Animation;
  on_complete : list Effect
}.

Definition reset_values : list Effect :=
  [ setValue translateX 0; setValue translateY 0;
    setValue likeOpacity 0; setValue nopeOpacity 0 ].

Definition exit_left (SCREEN_WIDTH dy : float) : Started :=
  {| animations := [ timing translateX (- SCREEN_WIDTH * 1.5) 200%Z;
                     timing translateY (dy * 0.3) 200%Z;
                     timing nopeOpacity 0 150%Z ];
     on_complete := reset_values ++ [handleSwipeLeft] |}.

Definition exit_right (SCREEN_WIDTH dy : float) : Started :=
  {| animations := [ timing translateX (SCREEN_WIDTH * 1.5) 200%Z;
                     timing translateY (dy * 0.3) 200%Z;
                     timing likeOpacity 0 150%Z ];
     on_complete := reset_values ++ [handleSwipeRight] |}.

Definition spring_back : Started :=
  {| animations := [ spring translateX 0; spring translateY 0;
                     timing likeOpacity 0 200%Z; timing nopeOpacity 0 200%Z ];
     on_complete := [] |}.

(** [onPanResponderRelease], on the [dx] and [dy] of the gesture state. *)
Definition onPanResponderRelease (SCREEN_WIDTH dx dy : float) : Started :=
  let shouldLeft := dx <? - SWIPE_THRESHOLD SCREEN_WIDTH in
  let shouldRight := SWIPE_THRESHOLD SCREEN_WIDTH <? dx in
  if shouldLeft then exit_left SCREEN_WIDTH dy
  else if shouldRight then exit_right SCREEN_WIDTH dy
  else spring_back.

(** The completion of the started animations runs the effect [e]. *)
Definition fires (e : Effect) (r : Started) : Prop := In e (on_complete r).

(** [onPanResponderMove], for the [isActive] the responder was created
    with: the [setValue] calls it makes, in order. *)
Definition onPanResponderMove (isActive : bool) (SCREEN_WIDTH dx dy : float)
  : list Effect :=
  if negb isActive then []
  else
    let xValue := dx in
    let threshold := SWIPE_THRESHOLD SCREEN_WIDTH * 0.75 in
    [ setValue translateX dx; setValue translateY (dy * 0.22) ] ++
    (if 0 <? xValue then
       let opacity := Num.Math_min 1 (xValue / threshold) in
       [ setValue likeOpacity opacity; setValue nopeOpacity 0 ]
     else if xValue <? 0 then
       let opacity := Num.Math_min 1 (- xValue / threshold) in
       [ setValue nopeOpacity opacity; setValue likeOpacity 0 ]
     else
       [ setValue likeOpacity 0; setValue nopeOpacity 0 ]).

(** [onMoveShouldSetPanResponder]. *)
Definition onMoveShouldSetPanResponder (isActive : bool) (dx dy : float) : bool :=
  if negb isActive then false
  else (5 <? abs dx) || (5 <? abs dy).

(** [onPanResponderTerminate]. *)
Definition onPanResponderTerminate : Started :=
  {| animations := [ spring translateX 0; spring translateY 0 ];
     on_complete := [] |}.

Definition Value_eqb (a b : Value) : bool :=
  match a, b with
  | translateX, translateX | translateY, translateY
  | likeOpacity, likeOpacity | nopeOpacity, nopeOpacity => true
  | _, _ => false
  end.

(** The value [v] holds once the effects have run, [before] being what it
    held. *)
Fixpoint value_after (v : Value) (effects : list Effect) (before : float) : float :=
  match effects with
  | [] => before
  | setValue w x :: rest =>
      value_after v rest (if Value_eqb w v then x else before)
  | _ :: rest => value_after v rest before
  end.

(** The [style] prop the screen passes to a card. *)
Record Style : Type := mkStyle {
  zIndex : Z;
  styleTranslateX : Z;
  styleTranslateY : Z
}.

(** The props of a card; the two handlers are transitions of the screen. *)
Record Props : Type := mkProps {
  outfit : OutfitSuggestion;
  isActive : bool;
  onSwipeLeft : Home.Screen -> Home.Screen;
  onSwipeRight : Home.Screen -> Home.Screen;
  style : Style
}.

(** The comparison given to [memo]: [true] skips the re-render. *)
Definition propsAreEqual (prevProps nextProps : Props) : bool :=
  String.eqb (id (outfit prevProps)) (id (outfit nextProps))
  && Bool.eqb (isActive prevProps) (isActive nextProps)
  && String.eqb (imageUri (outfit prevProps)) (imageUri (outfit nextProps)).

End Card.

(** ** The thumbnail arc ([ArcCarousel]) *)

Module Arc.

Definition ARC_ANGLE : Z := 118.
Definition THUMB : Z := 52.
Definition CENTER : Z := 70.
Definition visibleRange : Z := 4.

(** [for (let i = start; i <= end; i++) idxs.push(i)], entered with the
    counter at [i]. *)
Equations? push_from (i end_ : Z) (idxs : list Z) : list Z
  by wf (Z.to_nat (end_ + 1 - i)) lt :=
  push_from i end_ idxs with Z_le_gt_dec i end_ := {
    | left _ => push_from (i + 1) end_ (idxs ++ [i]);
    | right _ => idxs }.
Proof. lia. Qed.

Definition window_start (activeIndex : Z) : Z :=
  Z.max 0 (activeIndex - visibleRange).

Definition window_end (n activeIndex : Z) : Z :=
  Z.min (n - 1) (activeIndex + visibleRange).

(** The memoised [visible] array, for [items.length = n]. *)
Definition visible (n activeIndex : Z) : list Z :=
  push_from (window_start activeIndex) (window_end n activeIndex) [].

Definition opacity_of (dist : Z) : Q :=
  if dist =? 0 then 1%Q
  else if dist =? 1 then 0.75%Q
  else if dist =? 2 then 0.55%Q
  else 0.35%Q.

(** What is drawn for one entry of [visible]; the position on the arc
    (a sine and a cosine of the slot's angle) is left out. *)
Record Thumb (A : Type) : Type := mkThumb {
  realIndex : Z;
  slot : Z;
  item : option A;
  isActive : bool;
  size : Z;
  opacity : Q;
  ring : bool
}.

Arguments mkThumb {A}.
Arguments realIndex {A}.
Arguments slot {A}.
Arguments item {A}.
Arguments isActive {A}.
Arguments size {A}.
Arguments opacity {A}.
Arguments ring {A}.

Definition thumb {A : Type} (items : list A) (activeIndex : Z) (realIndex_ slot_ : Z)
  : Thumb A :=
  let active := realIndex_ =? activeIndex in
  let dist := Z.abs (realIndex_ - activeIndex) in
  {| realIndex := realIndex_;
     slot := slot_;
     item := Js.get items realIndex_;
     isActive := active;
     size := if active then CENTER else THUMB;
     opacity := opacity_of dist;
     ring := active |}.

Definition render {A : Type} (items : list A) (activeIndex : Z) : list (Thumb A) :=
  Js.mapi (thumb items activeIndex) (visible (Js.length items) activeIndex).

(** The integers from [lo] to [hi], in order. *)
Definition interval (lo hi : Z) : list Z :=
  map (fun k => lo + Z.of_nat k) (seq 0 (Z.to_nat (hi + 1 - lo))).

(** The React key of a thumbnail, [item.id]. *)
Definition key_of (t : Thumb OutfitSuggestion) : option string :=
  option_map id (item t).

(** The two badges, [item.isAccepted && ...] and [item.isRejected && ...]. *)
Definition badge_accepted (t : Thumb OutfitSuggestion) : bool :=
  match item t with Some o => truthy (isAccepted o) | None => false end.

Definition badge_rejected (t : Thumb OutfitSuggestion) : bool :=
  match item t with Some o => truthy (isRejected o) | None => false end.

End Arc.

(** ** What the screen renders *)

Module Render.

(** One [SwipeableCard] of the stack. *)
Definition card (o : OutfitSuggestion) (idx : Z) : Card.Props :=
  {| Card.outfit := o;
     Card.isActive := idx =? 0;
     Card.onSwipeLeft := Home.onLeft;
     Card.onSwipeRight := Home.onRight;
     Card.style := {| Card.zIndex := 20 - idx;
                      Card.styleTranslateX := idx * Home.cardOffset - Home.cardOffset;
                      Card.styleTranslateY := idx * Home.cardOffset |} |}.

(** [visibleCards.map((o, idx) => <SwipeableCard ... />)]. *)
Definition cards (s : Home.Screen) : list Card.Props :=
  Js.mapi card (Home.visibleCards s).

(** The [ArcCarousel] of the screen. *)
Definition carousel (s : Home.Screen) : list (Arc.Thumb OutfitSuggestion) :=
  Arc.render (Home.outfits s) (Home.activeIndex s).

(** The undo button is on screen. *)
Definition undo_shown (s : Home.Screen) : bool :=
  0 <? Js.length (Home.history s).

End Render.

(** * Properties *)

(** ** Arrays *)

Section ArrayFacts.

Context {A : Type}.

Lemma get_Some_range (arr : list A) (i : Z) (x : A) :
  Js.get arr i = Some x -> 0 <= i <= Js.length arr - 1.
Proof.
  unfold Js.get, Js.length. destruct (Z.ltb_spec i 0) as [Hneg | Hpos].
  - discriminate.
  - intros H. assert (Hlt : (Z.to_nat i < List.length arr)%nat).
    { apply nth_error_Some. congruence. }
    lia.
Qed.

Lemma get_None_range (arr : list A) (i : Z) :
  Js.get arr i = None -> i < 0 \/ Js.length arr <= i.
Proof.
  unfold Js.get, Js.length. destruct (Z.ltb_spec i 0) as [Hneg | Hpos].
  - intros _. now left.
  - intros H. apply nth_error_None in H. right. lia.
Qed.

Lemma get_in_range (arr : list A) (i : Z) :
  0 <= i <= Js.length arr - 1 -> exists x, Js.get arr i = Some x.
Proof.
  intros Hi. destruct (Js.get arr i) as [x |] eqn:E.
  - now exists x.
  - apply get_None_range in E. lia.
Qed.

Lemma get_In (arr : list A) (i : Z) (x : A) :
  Js.get arr i = Some x -> In x arr.
Proof.
  unfold Js.get. destruct (i <? 0); [discriminate |]. apply nth_error_In.
Qed.

Lemma get_shift (a : A) (arr : list A) (i : Z) :
  0 < i -> Js.get (a :: arr) i = Js.get arr (i - 1).
Proof.
  intros Hi. unfold Js.get.
  destruct (Z.ltb_spec i 0); [lia |]. destruct (Z.ltb_spec (i - 1) 0); [lia |].
  replace (Z.to_nat i) with (S (Z.to_nat (i - 1))) by lia. reflexivity.
Qed.

Lemma length_map_from {B : Type} (f : A -> Z -> B) (arr : list A) :
  forall i, List.length (Js.map_from f i arr) = List.length arr.
Proof.
  induction arr as [| a arr IH]; intros i; simpl; [reflexivity |].
  now rewrite IH.
Qed.

Lemma In_map_from {B : Type} (f : A -> Z -> B) (arr : list A) (y : B) :
  forall i, In y (Js.map_from f i arr) ->
            exists x k, In x arr /\ i <= k /\ y = f x k.
Proof.
  induction arr as [| a arr IH]; intros i; simpl; [tauto |].
  intros [Hy | Hy].
  - exists a, i. repeat split; [now left | lia | congruence].
  - destruct (IH _ Hy) as (x & k & Hx & Hk & E).
    exists x, k. repeat split; [now right | lia | exact E].
Qed.

Lemma last_entry_app (arr : list A) (x : A) :
  Js.last_entry (arr ++ [x]) = Some x.
Proof.
  unfold Js.last_entry, Js.get, Js.length. rewrite length_app. simpl.
  destruct (Z.ltb_spec (Z.of_nat (List.length arr + 1) - 1) 0); [lia |].
  replace (Z.to_nat (Z.of_nat (List.length arr + 1) - 1)) with (List.length arr) by lia.
  rewrite nth_error_app2 by lia. now rewrite Nat.sub_diag.
Qed.

Lemma last_entry_nonempty (arr : list A) :
  arr <> [] -> exists x, Js.last_entry arr = Some x /\ In x arr.
Proof.
  intros Hne. destruct (exists_last Hne) as (front & x & ->).
  exists x. split; [apply last_entry_app |].
  apply in_or_app. right. now left.
Qed.

Lemma drop_last_app (arr : list A) (x : A) :
  Js.drop_last (arr ++ [x]) = arr.
Proof. apply removelast_last. Qed.

Lemma drop_last_incl (arr : list A) (x : A) :
  In x (Js.drop_last arr) -> In x arr.
Proof.
  destruct arr as [| a arr] using rev_ind; [tauto |].
  rewrite drop_last_app. intros H. apply in_or_app. now left.
Qed.

End ArrayFacts.

(** ** The persisted collection *)

Section StoreFacts.

Lemma has_id_spec (i : string) (cur : list OutfitSuggestion) :
  Store.has_id i cur = true <-> exists x, In x cur /\ id x = i.
Proof.
  unfold Store.has_id. rewrite existsb_exists.
  split; intros (x & Hx & E); exists x; split; auto; now apply String.eqb_eq.
Qed.

Lemma has_id_map (i : string) (cur : list OutfitSuggestion) :
  Store.has_id i cur = true <-> In i (map id cur).
Proof.
  rewrite has_id_spec, in_map_iff.
  split; intros (x & H1 & H2); exists x; tauto.
Qed.

Lemma addAccepted_present (outfit : OutfitSuggestion) (cur : list OutfitSuggestion) :
  Store.has_id (id outfit) cur = true -> Store.addAccepted outfit cur = cur.
Proof. unfold Store.addAccepted. now intros ->. Qed.

Lemma addAccepted_fresh (outfit : OutfitSuggestion) (cur : list OutfitSuggestion) :
  Store.has_id (id outfit) cur = false -> Store.addAccepted outfit cur = outfit :: cur.
Proof. unfold Store.addAccepted. now intros ->. Qed.

Lemma addAccepted_has_id (outfit : OutfitSuggestion) (cur : list OutfitSuggestion) :
  Store.has_id (id outfit) (Store.addAccepted outfit cur) = true.
Proof.
  unfold Store.addAccepted. destruct (Store.has_id (id outfit) cur) eqn:E; [exact E |].
  simpl. now rewrite String.eqb_refl.
Qed.

Lemma removeAccepted_absent (i : string) (cur : list OutfitSuggestion) :
  Store.has_id i cur = false -> Store.removeAccepted i cur = cur.
Proof.
  unfold Store.has_id, Store.removeAccepted.
  induction cur as [| x cur IH]; simpl; [reflexivity |].
  intros H. apply orb_false_elim in H as [Hx Hrest].
  rewrite Hx. simpl. now rewrite IH.
Qed.

Lemma removeAccepted_has_id (i : string) (cur : list OutfitSuggestion) :
  Store.has_id i (Store.removeAccepted i cur) = false.
Proof.
  unfold Store.has_id, Store.removeAccepted.
  induction cur as [| x cur IH]; simpl; [reflexivity |].
  destruct (String.eqb (id x) i) eqn:E; simpl; [exact IH |].
  now rewrite E, IH.
Qed.

Lemma addAccepted_unique (outfit : OutfitSuggestion) (cur : list OutfitSuggestion) :
  Store.unique_ids cur -> Store.unique_ids (Store.addAccepted outfit cur).
Proof.
  unfold Store.unique_ids, Store.addAccepted. intros Hcur.
  destruct (Store.has_id (id outfit) cur) eqn:E; [exact Hcur |].
  simpl. constructor; [| exact Hcur].
  intros Hin. apply has_id_map in Hin. congruence.
Qed.

Lemma removeAccepted_unique (i : string) (cur : list OutfitSuggestion) :
  Store.unique_ids cur -> Store.unique_ids (Store.removeAccepted i cur).
Proof.
  unfold Store.unique_ids, Store.removeAccepted.
  induction cur as [| x cur IH]; simpl; intros Hcur; [constructor |].
  inversion Hcur as [| ? ? Hnotin Hrest]; subst.
  destruct (negb (String.eqb (id x) i)); simpl; [| now apply IH].
  constructor; [| now apply IH].
  intros Hin. apply Hnotin. apply in_map_iff in Hin as (y & Hy & Hin).
  apply filter_In in Hin as [Hin _]. apply in_map_iff. now exists y.
Qed.

Lemma apply_call_unique (c : Store.Call) (cur : list OutfitSuggestion) :
  Store.unique_ids cur -> Store.unique_ids (Store.apply_call cur c).
Proof.
  destruct c; simpl; intros H.
  - now apply addAccepted_unique.
  - now apply removeAccepted_unique.
  - constructor.
Qed.

Lemma run_unique (calls : list Store.Call) :
  forall cur, Store.unique_ids cur -> Store.unique_ids (Store.run calls cur).
Proof.
  unfold Store.run. induction calls as [| c calls IH]; simpl; intros cur H; [exact H |].
  apply IH. now apply apply_call_unique.
Qed.

Lemma unique_ids_count (cur : list OutfitSuggestion) :
  Store.unique_ids cur -> forall i, (Store.count_id i cur <= 1)%nat.
Proof.
  unfold Store.unique_ids, Store.count_id.
  induction cur as [| x cur IH]; simpl; intros Hcur i; [lia |].
  inversion Hcur as [| ? ? Hnotin Hrest]; subst.
  destruct (String.eqb (id x) i) eqn:E; simpl; [| now apply IH].
  apply String.eqb_eq in E. subst i.
  assert (Hnone : filter (fun y => String.eqb (id y) (id x)) cur = []).
  { destruct (filter _ cur) as [| y rest] eqn:F; [reflexivity |].
    exfalso. apply Hnotin.
    assert (Hy : In y (filter (fun y => String.eqb (id y) (id x)) cur))
      by (rewrite F; now left).
    apply filter_In in Hy as [Hy Hid]. apply String.eqb_eq in Hid.
    apply in_map_iff. now exists y. }
  rewrite Hnone. simpl. lia.
Qed.

(** C7. Starting from the empty [accepted] array, after any sequence of
    [addAccepted], [removeAccepted] and [clearAll] calls no two records of
    the array bear the same id (each id occurs at most once); and
    [addAccepted] of an outfit whose id is already present returns the
    array as it was. *)
Theorem accepted_ids_unique :
  (forall calls : list Store.Call,
      let cur := Store.run calls Store.accepted_init in
      Store.unique_ids cur /\ forall i, (Store.count_id i cur <= 1)%nat)
  /\
  (forall (outfit : OutfitSuggestion) (cur : list OutfitSuggestion),
      (exists x, In x cur /\ id x = id outfit) ->
      Store.addAccepted outfit cur = cur).
Proof.
  split.
  - intros calls cur.
    assert (H : Store.unique_ids cur) by (apply run_unique; constructor).
    split; [exact H | now apply unique_ids_count].
  - intros outfit cur H. apply addAccepted_present. now apply has_id_spec.
Qed.

End StoreFacts.

(** ** The handlers of the screen *)

Section HandlerFacts.

Lemma get_map {A B : Type} (f : A -> B) (arr : list A) (i : Z) :
  Js.get (map f arr) i = option_map f (Js.get arr i).
Proof.
  unfold Js.get. destruct (i <? 0); [reflexivity |]. apply nth_error_map.
Qed.

Lemma js_length_map {A B : Type} (f : A -> B) (arr : list A) :
  Js.length (map f arr) = Js.length arr.
Proof. unfold Js.length. now rewrite List.length_map. Qed.

Lemma js_length_mapi {A B : Type} (f : A -> Z -> B) (arr : list A) :
  Js.length (Js.mapi f arr) = Js.length arr.
Proof. unfold Js.length, Js.mapi. now rewrite length_map_from. Qed.

Lemma accept_by_id_self (current : OutfitSuggestion) :
  Home.accept_by_id current current = with_flags current true false.
Proof. unfold Home.accept_by_id. now rewrite String.eqb_refl. Qed.

Lemma reject_by_id_self (current : OutfitSuggestion) :
  Home.reject_by_id current current = with_flags current false true.
Proof. unfold Home.reject_by_id. now rewrite String.eqb_refl. Qed.

Lemma accept_by_id_other (current o : OutfitSuggestion) :
  id o <> id current -> Home.accept_by_id current o = o.
Proof.
  intros H. unfold Home.accept_by_id.
  destruct (String.eqb_spec (id o) (id current)); congruence.
Qed.

Lemma reject_by_id_other (current o : OutfitSuggestion) :
  id o <> id current -> Home.reject_by_id current o = o.
Proof.
  intros H. unfold Home.reject_by_id.
  destruct (String.eqb_spec (id o) (id current)); congruence.
Qed.

(** The three handlers on their main path. *)

Lemma onLeft_commit (s : Home.Screen) (current : OutfitSuggestion) :
  Home.isProcessing s = false ->
  Js.get (Home.outfits s) (Home.activeIndex s) = Some current ->
  Home.onLeft s =
  {| Home.outfits := map (Home.reject_by_id current) (Home.outfits s);
     Home.activeIndex := Home.activeIndex s;
     Home.history := Home.history s ++
                     [ {| Home.index := Home.activeIndex s; Home.action := Home.left |} ];
     Home.isProcessing := true;
     Home.accepted := Home.accepted s;
     Home.timers := Home.timers s ++ [Home.AdvanceTimer] |}.
Proof.
  intros Hguard Hcur. unfold Home.onLeft. rewrite Hguard. simpl. now rewrite Hcur.
Qed.

Lemma onRight_commit (s : Home.Screen) (current : OutfitSuggestion) :
  Home.isProcessing s = false ->
  Js.get (Home.outfits s) (Home.activeIndex s) = Some current ->
  Home.onRight s =
  {| Home.outfits := map (Home.accept_by_id current) (Home.outfits s);
     Home.activeIndex := Home.activeIndex s;
     Home.history := Home.history s ++
                     [ {| Home.index := Home.activeIndex s; Home.action := Home.right |} ];
     Home.isProcessing := true;
     Home.accepted := Store.addAccepted current (Home.accepted s);
     Home.timers := Home.timers s ++ [Home.AdvanceTimer] |}.
Proof.
  intros Hguard Hcur. unfold Home.onRight. rewrite Hguard. simpl. now rewrite Hcur.
Qed.

Lemma length_nonzero {A : Type} (arr : list A) :
  arr <> [] -> (Js.length arr =? 0) = false.
Proof.
  intros H. apply Z.eqb_neq. unfold Js.length. destruct arr; [congruence | simpl; lia].
Qed.

Lemma undo_commit (s : Home.Screen) (last : Home.HistoryEntry) (item : OutfitSuggestion) :
  Home.isProcessing s = false ->
  Js.last_entry (Home.history s) = Some last ->
  Js.get (Home.outfits s) (Home.index last) = Some item ->
  Home.undo s =
  {| Home.outfits := Js.mapi (Home.reset_at (Home.index last)) (Home.outfits s);
     Home.activeIndex := Home.index last;
     Home.history := Js.drop_last (Home.history s);
     Home.isProcessing := true;
     Home.accepted := if Home.Action_eqb (Home.action last) Home.right
                      then Store.removeAccepted (id item) (Home.accepted s)
                      else Home.accepted s;
     Home.timers := Home.timers s ++ [Home.ReleaseTimer] |}.
Proof.
  intros Hguard Hlast Hitem. unfold Home.undo. rewrite Hguard.
  rewrite length_nonzero.
  - simpl. rewrite Hlast, Hitem. reflexivity.
  - intros E. rewrite E in Hlast. discriminate.
Qed.

Lemma state_eta (s : Home.Screen) :
  {| Home.outfits := Home.outfits s; Home.activeIndex := Home.activeIndex s;
     Home.history := Home.history s; Home.isProcessing := Home.isProcessing s;
     Home.accepted := Home.accepted s; Home.timers := Home.timers s |} = s.
Proof. now destruct s. Qed.

(** C1. In a state whose guard is clear and whose active index holds the
    outfit [current], [onRight] leaves at the active index that outfit with
    [isAccepted = true] and [isRejected = false], its other fields being
    those of [current] (outfits with another id are untouched), appends [{index: activeIndex, action: 'right'}] to the
    history, and hands [current] to [addAccepted]: afterwards the accepted
    collection holds a record with the id of [current], which is [current]
    itself, put in front, when no record bore that id before; when one
    did, the collection is the one it was. *)
Theorem onRight_accepts_and_persists (s : Home.Screen) (current : OutfitSuggestion) :
  Home.isProcessing s = false ->
  Js.get (Home.outfits s) (Home.activeIndex s) = Some current ->
  let s' := Home.onRight s in
  Js.get (Home.outfits s') (Home.activeIndex s) = Some (with_flags current true false)
  /\ (forall j o, Js.get (Home.outfits s) j = Some o -> id o <> id current ->
                  Js.get (Home.outfits s') j = Some o)
  /\ Home.history s' =
     Home.history s ++ [ {| Home.index := Home.activeIndex s; Home.action := Home.right |} ]
  /\ Home.accepted s' = Store.addAccepted current (Home.accepted s)
  /\ (exists x, In x (Home.accepted s') /\ id x = id current)
  /\ (Store.has_id (id current) (Home.accepted s) = false ->
      Home.accepted s' = current :: Home.accepted s)
  /\ (exists marked,
        Js.get (Home.outfits s') (Home.activeIndex s) = Some marked
        /\ isAccepted marked = Some true /\ isRejected marked = Some false
        /\ id marked = id current /\ imageUri marked = imageUri current
         /\ title marked = title current /\ subtitle marked = subtitle current
         /\ handle marked = handle current /\ reason marked = reason current
         /\ bgGradient marked = bgGradient current)
  /\ (Store.has_id (id current) (Home.accepted s) = true ->
      Home.accepted s' = Home.accepted s).
Proof.
  intros Hguard Hcur s'. subst s'. rewrite (onRight_commit s current Hguard Hcur). simpl.
  assert (Hat : Js.get (map (Home.accept_by_id current) (Home.outfits s)) (Home.activeIndex s)
                = Some (with_flags current true false)).
  { rewrite get_map, Hcur. simpl. now rewrite accept_by_id_self. }
  split; [exact Hat |]. split; [| split; [| split; [| split; [| split; [| split]]]]].
  - intros j o Hj Hid. rewrite get_map, Hj. simpl. now rewrite accept_by_id_other.
  - reflexivity.
  - reflexivity.
  - apply has_id_spec, addAccepted_has_id.
  - apply addAccepted_fresh.
  - exists (with_flags current true false). split; [exact Hat |].
    simpl. repeat split.
  - apply addAccepted_present.
Qed.

(** C2. In a state whose guard is clear and whose active index holds the
    outfit [current], [onLeft] leaves at the active index that outfit with
    [isRejected = true] and [isAccepted = false], its other fields being
    those of [current] (outfits with another id are untouched), appends [{index: activeIndex, action: 'left'}] to the
    history, and does not touch the accepted collection. *)
Theorem onLeft_rejects (s : Home.Screen) (current : OutfitSuggestion) :
  Home.isProcessing s = false ->
  Js.get (Home.outfits s) (Home.activeIndex s) = Some current ->
  let s' := Home.onLeft s in
  Js.get (Home.outfits s') (Home.activeIndex s) = Some (with_flags current false true)
  /\ (forall j o, Js.get (Home.outfits s) j = Some o -> id o <> id current ->
                  Js.get (Home.outfits s') j = Some o)
  /\ Home.history s' =
     Home.history s ++ [ {| Home.index := Home.activeIndex s; Home.action := Home.left |} ]
  /\ Home.accepted s' = Home.accepted s
  /\ (exists marked,
        Js.get (Home.outfits s') (Home.activeIndex s) = Some marked
        /\ isRejected marked = Some true /\ isAccepted marked = Some false
        /\ id marked = id current /\ imageUri marked = imageUri current
         /\ title marked = title current /\ subtitle marked = subtitle current
         /\ handle marked = handle current /\ reason marked = reason current
         /\ bgGradient marked = bgGradient current).
Proof.
  intros Hguard Hcur s'. subst s'. rewrite (onLeft_commit s current Hguard Hcur). simpl.
  assert (Hat : Js.get (map (Home.reject_by_id current) (Home.outfits s)) (Home.activeIndex s)
                = Some (with_flags current false true)).
  { rewrite get_map, Hcur. simpl. now rewrite reject_by_id_self. }
  split; [exact Hat |]. split; [| split; [| split]].
  - intros j o Hj Hid. rewrite get_map, Hj. simpl. now rewrite reject_by_id_other.
  - reflexivity.
  - reflexivity.
  - exists (with_flags current false true). split; [exact Hat |].
    simpl. repeat split.
Qed.

Lemma guarded_handlers_return (s : Home.Screen) :
  Home.isProcessing s = true ->
  Home.onLeft s = s /\ Home.onRight s = s /\ Home.undo s = s.
Proof.
  intros Hguard. unfold Home.onLeft, Home.onRight, Home.undo.
  rewrite Hguard, orb_true_r. auto.
Qed.

(** C8. While the guard is set, [onLeft], [onRight], [undo] and a press on
    a carousel item return the state they were given: outfits, history,
    active index and accepted collection (and the guard and the pending
    timers) are unchanged. *)
Theorem guard_debounces (s : Home.Screen) :
  Home.isProcessing s = true ->
  Home.onLeft s = s /\ Home.onRight s = s /\ Home.undo s = s /\
  (forall i, Home.onItemPress i s = s).
Proof.
  intros Hguard.
  destruct (guarded_handlers_return s Hguard) as (Hl & Hr & Hu).
  repeat split; trivial.
  intros i. unfold Home.onItemPress. now rewrite Hguard.
Qed.

End HandlerFacts.

(** ** Case analysis of the handlers *)

Section HandlerCases.

Lemma set_processing_twice (s : Home.Screen) :
  Home.isProcessing s = false ->
  Home.set_processing false (Home.set_processing true s) = s.
Proof. intros H. destruct s; simpl in *. now subst. Qed.

Lemma onLeft_out_of_range (s : Home.Screen) :
  Home.isProcessing s = false ->
  Js.get (Home.outfits s) (Home.activeIndex s) = None ->
  Home.onLeft s = s.
Proof.
  intros Hguard Hnone. unfold Home.onLeft. rewrite Hguard. simpl. rewrite Hnone.
  now apply set_processing_twice.
Qed.

Lemma onRight_out_of_range (s : Home.Screen) :
  Home.isProcessing s = false ->
  Js.get (Home.outfits s) (Home.activeIndex s) = None ->
  Home.onRight s = s.
Proof.
  intros Hguard Hnone. unfold Home.onRight. rewrite Hguard. simpl. rewrite Hnone.
  now apply set_processing_twice.
Qed.

Lemma undo_out_of_range (s : Home.Screen) (last : Home.HistoryEntry) :
  Home.isProcessing s = false ->
  Js.last_entry (Home.history s) = Some last ->
  Js.get (Home.outfits s) (Home.index last) = None ->
  Home.undo s = s.
Proof.
  intros Hguard Hlast Hnone. unfold Home.undo. rewrite Hguard.
  rewrite length_nonzero.
  - simpl. rewrite Hlast, Hnone. now apply set_processing_twice.
  - intros E. rewrite E in Hlast. discriminate.
Qed.

Lemma undo_empty_history (s : Home.Screen) :
  Home.history s = [] -> Home.undo s = s.
Proof. intros H. unfold Home.undo. now rewrite H. Qed.

Lemma swipe_cases (s : Home.Screen) :
  (Home.onLeft s = s /\ Home.onRight s = s) \/
  (exists current,
      Home.isProcessing s = false /\
      Js.get (Home.outfits s) (Home.activeIndex s) = Some current).
Proof.
  destruct (Home.isProcessing s) eqn:Hguard.
  - left. destruct (guarded_handlers_return s Hguard) as (H1 & H2 & _). now split.
  - destruct (Js.get (Home.outfits s) (Home.activeIndex s)) as [current |] eqn:Hcur.
    + right. now exists current.
    + left. split; [now apply onLeft_out_of_range | now apply onRight_out_of_range].
Qed.

Lemma undo_cases (s : Home.Screen) :
  Home.undo s = s \/
  (exists last item,
      Home.isProcessing s = false /\
      Js.last_entry (Home.history s) = Some last /\
      In last (Home.history s) /\
      Js.get (Home.outfits s) (Home.index last) = Some item).
Proof.
  destruct (Home.isProcessing s) eqn:Hguard.
  - left. now destruct (guarded_handlers_return s Hguard) as (_ & _ & H).
  - destruct (Home.history s) as [| h hs] eqn:Hhist.
    + left. now apply undo_empty_history.
    + assert (Hne : Home.history s <> []) by (rewrite Hhist; discriminate).
      destruct (last_entry_nonempty _ Hne) as (last & Hlast & Hin).
      rewrite Hhist in *.
      destruct (Js.get (Home.outfits s) (Home.index last)) as [item |] eqn:Hitem.
      * right. exists last, item. repeat split; trivial.
      * left. apply (undo_out_of_range s last); auto. now rewrite Hhist.
Qed.

End HandlerCases.

(** ** Invariants of the reachable states *)

Section Invariants.

Lemma reachable_invariant (P : Home.Screen -> Prop) (s0 : Home.Screen) :
  P s0 ->
  (forall s e, P s -> Home.possible e s -> P (Home.step e s)) ->
  forall s, Home.reachable s0 s -> P s.
Proof.
  intros Hinit Hstep s Hreach. induction Hreach as [| s e _ IH Hposs]; auto.
Qed.

Lemma fire_outfits (s : Home.Screen) :
  Home.outfits (Home.fire s) = Home.outfits s.
Proof. unfold Home.fire. now destruct (Home.timers s) as [| [] ?]. Qed.

Lemma fire_history (s : Home.Screen) :
  Home.history (Home.fire s) = Home.history s.
Proof. unfold Home.fire. now destruct (Home.timers s) as [| [] ?]. Qed.

Lemma step_length (s : Home.Screen) (e : Home.Event) :
  Js.length (Home.outfits (Home.step e s)) = Js.length (Home.outfits s).
Proof.
  destruct e; simpl.
  - destruct (swipe_cases s) as [[-> _] | (current & Hguard & Hcur)]; [reflexivity |].
    rewrite (onLeft_commit s current Hguard Hcur). simpl. apply js_length_map.
  - destruct (swipe_cases s) as [[_ ->] | (current & Hguard & Hcur)]; [reflexivity |].
    rewrite (onRight_commit s current Hguard Hcur). simpl. apply js_length_map.
  - destruct (undo_cases s) as [-> | (last & item & Hguard & Hlast & _ & Hitem)];
      [reflexivity |].
    rewrite (undo_commit s last item Hguard Hlast Hitem). simpl. apply js_length_mapi.
  - reflexivity.
  - unfold Home.onItemPress. now destruct (negb (Home.isProcessing s)).
  - now rewrite fire_outfits.
Qed.

Lemma reachable_length (s0 s : Home.Screen) :
  Home.reachable s0 s -> Js.length (Home.outfits s) = Js.length (Home.outfits s0).
Proof.
  intros H. induction H as [| s e _ IH _]; [reflexivity |]. now rewrite step_length.
Qed.

Lemma reachable_run (s0 : Home.Screen) (es : list Home.Event) :
  (forall i, In (Home.ItemPress i) es -> 0 <= i <= Js.length (Home.outfits s0) - 1) ->
  forall s, Home.reachable s0 s -> Home.reachable s0 (Home.run es s).
Proof.
  unfold Home.run. induction es as [| e es IH]; simpl; intros Hpress s Hs; [exact Hs |].
  apply IH; [intros i Hi; apply Hpress; now right |].
  apply Home.reach_step; [exact Hs |].
  destruct e; simpl; trivial.
  rewrite (reachable_length s0 s Hs). apply Hpress. now left.
Qed.

Lemma goNext_in_range (n i : Z) :
  1 <= n -> Home.in_range n i -> Home.in_range n (Z.min (i + 1) (n - 1)).
Proof. unfold Home.in_range. lia. Qed.

(** The bounds are kept by every event, provided there is an outfit. *)
Lemma step_bounded (s : Home.Screen) (e : Home.Event) :
  1 <= Js.length (Home.outfits s) ->
  Home.bounded s -> Home.possible e s -> Home.bounded (Home.step e s).
Proof.
  intros Hn [Hidx Hhist] Hposs. unfold Home.bounded.
  rewrite step_length. destruct e; simpl in *.
  - destruct (swipe_cases s) as [[-> _] | (current & Hguard & Hcur)]; [now split |].
    rewrite (onLeft_commit s current Hguard Hcur). simpl. split; [exact Hidx |].
    apply Forall_app. split; [exact Hhist |]. constructor; [exact Hidx | constructor].
  - destruct (swipe_cases s) as [[_ ->] | (current & Hguard & Hcur)]; [now split |].
    rewrite (onRight_commit s current Hguard Hcur). simpl. split; [exact Hidx |].
    apply Forall_app. split; [exact Hhist |]. constructor; [exact Hidx | constructor].
  - destruct (undo_cases s) as [-> | (last & item & Hguard & Hlast & Hin & Hitem)];
      [now split |].
    rewrite (undo_commit s last item Hguard Hlast Hitem). simpl. split.
    + apply (get_Some_range _ _ _ Hitem).
    + rewrite Forall_forall in *. intros x Hx. apply Hhist. now apply drop_last_incl.
  - split; [now apply goNext_in_range | exact Hhist].
  - unfold Home.onItemPress. destruct (negb (Home.isProcessing s)); now split.
  - rewrite fire_history. split; [| exact Hhist].
    unfold Home.fire. destruct (Home.timers s) as [| [] ?]; simpl; trivial.
    now apply goNext_in_range.
Qed.

Lemma step_guarded_in_range (s : Home.Screen) (e : Home.Event) :
  Home.guarded_in_range s -> Home.guarded_in_range (Home.step e s).
Proof.
  unfold Home.guarded_in_range. intros Hinv. rewrite step_length. destruct e; simpl.
  - destruct (swipe_cases s) as [[-> _] | (current & Hguard & Hcur)]; [exact Hinv |].
    rewrite (onLeft_commit s current Hguard Hcur). simpl. intros _.
    apply (get_Some_range _ _ _ Hcur).
  - destruct (swipe_cases s) as [[_ ->] | (current & Hguard & Hcur)]; [exact Hinv |].
    rewrite (onRight_commit s current Hguard Hcur). simpl. intros _.
    apply (get_Some_range _ _ _ Hcur).
  - destruct (undo_cases s) as [-> | (last & item & Hguard & Hlast & Hin & Hitem)];
      [exact Hinv |].
    rewrite (undo_commit s last item Hguard Hlast Hitem). simpl. intros _.
    apply (get_Some_range _ _ _ Hitem).
  - intros Hguard. specialize (Hinv Hguard). unfold Home.in_range in *. lia.
  - unfold Home.onItemPress. destruct (Home.isProcessing s) eqn:Hguard; simpl; auto.
    rewrite Hguard. discriminate.
  - unfold Home.fire. destruct (Home.timers s) as [| [] ?]; simpl; auto; discriminate.
Qed.

Lemma reachable_guarded_in_range (items acc : list OutfitSuggestion) (s : Home.Screen) :
  Home.reachable (Home.initial items acc) s -> Home.guarded_in_range s.
Proof.
  apply reachable_invariant.
  - unfold Home.guarded_in_range. simpl. discriminate.
  - intros t e Ht _. now apply step_guarded_in_range.
Qed.

(** C4. From the first render of a non-empty outfits array, whatever the
    sequence of [onLeft], [onRight], [undo], [goNext], timeouts and presses
    on carousel items with an index in range, the array keeps its length
    [n], the active index stays within [0, n - 1], and every record on the
    history stack bears an index within [0, n - 1]. *)
Theorem index_never_exceeds_bounds
        (items acc : list OutfitSuggestion) (s : Home.Screen) :
  items <> [] ->
  Home.reachable (Home.initial items acc) s ->
  Js.length (Home.outfits s) = Js.length items /\
  0 <= Home.activeIndex s <= Js.length items - 1 /\
  Forall (fun h => 0 <= Home.index h <= Js.length items - 1) (Home.history s).
Proof.
  intros Hne Hreach.
  assert (Hn : 1 <= Js.length items).
  { unfold Js.length. destruct items; [congruence | simpl; lia]. }
  assert (Hinv : Js.length (Home.outfits s) = Js.length items /\ Home.bounded s).
  { revert s Hreach. apply reachable_invariant.
    - split; [reflexivity |]. split; simpl; [unfold Home.in_range; lia | constructor].
    - intros t e [Hlen Hb] Hposs. split.
      + now rewrite step_length.
      + apply step_bounded; auto. now rewrite Hlen. }
  destruct Hinv as (Hlen & Hidx & Hhist). rewrite Hlen in *. auto.
Qed.

End Invariants.

(** ** Null checks and flags *)

Section Defensive.

Lemma step_history_in_range (s : Home.Screen) (e : Home.Event) :
  Forall (fun h => Home.in_range (Js.length (Home.outfits s)) (Home.index h))
         (Home.history s) ->
  Forall (fun h => Home.in_range (Js.length (Home.outfits s)) (Home.index h))
         (Home.history (Home.step e s)).
Proof.
  intros Hhist. destruct e; simpl.
  - destruct (swipe_cases s) as [[-> _] | (current & Hguard & Hcur)]; [exact Hhist |].
    rewrite (onLeft_commit s current Hguard Hcur). simpl.
    apply Forall_app. split; [exact Hhist |].
    constructor; [apply (get_Some_range _ _ _ Hcur) | constructor].
  - destruct (swipe_cases s) as [[_ ->] | (current & Hguard & Hcur)]; [exact Hhist |].
    rewrite (onRight_commit s current Hguard Hcur). simpl.
    apply Forall_app. split; [exact Hhist |].
    constructor; [apply (get_Some_range _ _ _ Hcur) | constructor].
  - destruct (undo_cases s) as [-> | (last & item & Hguard & Hlast & Hin & Hitem)];
      [exact Hhist |].
    rewrite (undo_commit s last item Hguard Hlast Hitem). simpl.
    rewrite Forall_forall in *. intros x Hx. apply Hhist. now apply drop_last_incl.
  - exact Hhist.
  - unfold Home.onItemPress. now destruct (negb (Home.isProcessing s)).
  - now rewrite fire_history.
Qed.

(** In a reachable state every undo record points at an outfit: the null
    check of [undo] is never taken. *)
Lemma reachable_undo_item_found (items acc : list OutfitSuggestion) (s : Home.Screen)
      (last : Home.HistoryEntry) :
  Home.reachable (Home.initial items acc) s ->
  In last (Home.history s) ->
  exists item, Js.get (Home.outfits s) (Home.index last) = Some item.
Proof.
  intros Hreach Hin. apply get_in_range.
  assert (Hall : Forall (fun h => Home.in_range (Js.length (Home.outfits s)) (Home.index h))
                        (Home.history s)).
  { clear Hin. revert s Hreach. apply reachable_invariant.
    - constructor.
    - intros t e Ht _. rewrite step_length. now apply step_history_in_range. }
  rewrite Forall_forall in Hall. apply (Hall _ Hin).
Qed.

(** C9. When the index looked up holds no outfit, the handler returns the
    state it was given, guard clear: [onLeft] and [onRight] for the active
    index, [undo] for the index of the last undo record. The null check
    sits behind the guard test, so the handler is entered with the guard
    clear; in every state reachable from a first render this is automatic
    for [onLeft] and [onRight], since an active index holding no outfit
    and a set guard never occur together. *)
Theorem out_of_range_returns_unchanged :
  (forall s : Home.Screen,
      Home.isProcessing s = false ->
      Js.get (Home.outfits s) (Home.activeIndex s) = None ->
      Home.onLeft s = s /\ Home.isProcessing (Home.onLeft s) = false /\
      Home.onRight s = s /\ Home.isProcessing (Home.onRight s) = false)
  /\
  (forall (s : Home.Screen) (last : Home.HistoryEntry),
      Home.isProcessing s = false ->
      Js.last_entry (Home.history s) = Some last ->
      Js.get (Home.outfits s) (Home.index last) = None ->
      Home.undo s = s /\ Home.isProcessing (Home.undo s) = false)
  /\
  (forall (items acc : list OutfitSuggestion) (s : Home.Screen),
      Home.reachable (Home.initial items acc) s ->
      Js.get (Home.outfits s) (Home.activeIndex s) = None ->
      Home.onLeft s = s /\ Home.isProcessing (Home.onLeft s) = false /\
      Home.onRight s = s /\ Home.isProcessing (Home.onRight s) = false).
Proof.
  assert (Hswipe : forall s : Home.Screen,
             Home.isProcessing s = false ->
             Js.get (Home.outfits s) (Home.activeIndex s) = None ->
             Home.onLeft s = s /\ Home.isProcessing (Home.onLeft s) = false /\
             Home.onRight s = s /\ Home.isProcessing (Home.onRight s) = false).
  { intros s Hguard Hnone.
    rewrite (onLeft_out_of_range s Hguard Hnone), (onRight_out_of_range s Hguard Hnone).
    auto. }
  split; [exact Hswipe |]. split.
  - intros s last Hguard Hlast Hnone.
    rewrite (undo_out_of_range s last Hguard Hlast Hnone). auto.
  - intros items acc s Hreach Hnone. apply Hswipe; [| exact Hnone].
    destruct (Home.isProcessing s) eqn:Hguard; [| reflexivity].
    pose proof (reachable_guarded_in_range items acc s Hreach Hguard) as Hin.
    apply get_None_range in Hnone. unfold Home.in_range in Hin. lia.
Qed.

Lemma with_flags_exclusive (o : OutfitSuggestion) (a r : bool) :
  a && r = false -> Home.exclusive (with_flags o a r).
Proof.
  unfold Home.exclusive. simpl. intros H [Ha Hr].
  injection Ha as ->. injection Hr as ->. discriminate.
Qed.

Lemma step_exclusive (s : Home.Screen) (e : Home.Event) :
  Forall Home.exclusive (Home.outfits s) ->
  Forall Home.exclusive (Home.outfits (Home.step e s)).
Proof.
  intros Hall. destruct e; simpl.
  - destruct (swipe_cases s) as [[-> _] | (current & Hguard & Hcur)]; [exact Hall |].
    rewrite (onLeft_commit s current Hguard Hcur). simpl.
    apply Forall_map. revert Hall. apply Forall_impl. intros o Ho.
    unfold Home.reject_by_id. destruct (String.eqb (id o) (id current)); [| exact Ho].
    now apply with_flags_exclusive.
  - destruct (swipe_cases s) as [[_ ->] | (current & Hguard & Hcur)]; [exact Hall |].
    rewrite (onRight_commit s current Hguard Hcur). simpl.
    apply Forall_map. revert Hall. apply Forall_impl. intros o Ho.
    unfold Home.accept_by_id. destruct (String.eqb (id o) (id current)); [| exact Ho].
    now apply with_flags_exclusive.
  - destruct (undo_cases s) as [-> | (last & item & Hguard & Hlast & Hin & Hitem)];
      [exact Hall |].
    rewrite (undo_commit s last item Hguard Hlast Hitem). simpl.
    rewrite Forall_forall in *. intros y Hy. unfold Js.mapi in Hy.
    apply In_map_from in Hy as (o & k & Ho & _ & ->).
    unfold Home.reset_at. destruct (k =? Home.index last); [| now apply Hall].
    now apply with_flags_exclusive.
  - exact Hall.
  - unfold Home.onItemPress. now destruct (negb (Home.isProcessing s)).
  - now rewrite fire_outfits.
Qed.

(** C10. If no outfit of the first render has both flags true (the mock
    data carries no flag at all), none has in any reachable state. Each of
    the three [map] callbacks either returns the outfit it was given or
    writes both flags at once: rejected and not accepted for [onLeft],
    accepted and not rejected for [onRight], neither for [undo]. *)
Theorem flags_never_both_true :
  (forall (items acc : list OutfitSuggestion) (s : Home.Screen),
      Forall Home.exclusive items ->
      Home.reachable (Home.initial items acc) s ->
      Forall Home.exclusive (Home.outfits s))
  /\
  (forall current o,
      let o' := Home.reject_by_id current o in
      o' = o \/ (isRejected o' = Some true /\ isAccepted o' = Some false))
  /\
  (forall current o,
      let o' := Home.accept_by_id current o in
      o' = o \/ (isAccepted o' = Some true /\ isRejected o' = Some false))
  /\
  (forall i o idx,
      let o' := Home.reset_at i o idx in
      o' = o \/ (isAccepted o' = Some false /\ isRejected o' = Some false)).
Proof.
  repeat split.
  - intros items acc s Hitems Hreach. revert s Hreach. apply reachable_invariant.
    + exact Hitems.
    + intros t e Ht _. now apply step_exclusive.
  - intros current o. unfold Home.reject_by_id.
    destruct (String.eqb (id o) (id current)); simpl; auto.
  - intros current o. unfold Home.accept_by_id.
    destruct (String.eqb (id o) (id current)); simpl; auto.
  - intros i o idx. unfold Home.reset_at.
    destruct (idx =? i); simpl; auto.
Qed.

End Defensive.

(** ** Undo *)

Section UndoFacts.

Lemma map_from_mark_after (i : Z) (a r : bool) (arr : list OutfitSuggestion) :
  forall k, i < k -> Js.map_from (Home.mark_at i a r) k arr = arr.
Proof.
  induction arr as [| o arr IH]; intros k Hk; simpl; [reflexivity |].
  unfold Home.mark_at at 1. destruct (Z.eqb_spec k i); [lia |].
  now rewrite IH by lia.
Qed.

Lemma reset_at_mark_at (i : Z) :
  Home.reset_at i = Home.mark_at i false false.
Proof. reflexivity. Qed.

Lemma map_other_ids (f : OutfitSuggestion -> OutfitSuggestion)
      (current : OutfitSuggestion) (arr : list OutfitSuggestion) :
  (forall o, id o <> id current -> f o = o) ->
  ~ In (id current) (map id arr) ->
  map f arr = arr.
Proof.
  intros Hother. induction arr as [| o arr IH]; simpl; intros Hnotin; [reflexivity |].
  rewrite Hother, IH; auto.
Qed.

(** With unique ids, marking by id marks one position. *)
Lemma by_id_positional (f : OutfitSuggestion -> OutfitSuggestion) (a r : bool)
      (current : OutfitSuggestion) (i : Z) :
  f current = with_flags current a r ->
  (forall o, id o <> id current -> f o = o) ->
  forall (arr : list OutfitSuggestion) (k : Z),
    NoDup (map id arr) ->
    Js.get arr (i - k) = Some current ->
    map f arr = Js.map_from (Home.mark_at i a r) k arr.
Proof.
  intros Hself Hother. induction arr as [| o arr IH]; intros k Hnodup Hget; simpl.
  - reflexivity.
  - inversion Hnodup as [| ? ? Hnotin Hrest]; subst.
    pose proof (get_Some_range _ _ _ Hget) as Hrange.
    destruct (Z.eq_dec i k) as [-> | Hik].
    + rewrite Z.sub_diag in Hget. injection Hget as ->.
      unfold Home.mark_at at 1. rewrite Z.eqb_refl, Hself. f_equal.
      rewrite map_from_mark_after by lia.
      now apply (map_other_ids f current).
    + rewrite get_shift in Hget by lia.
      unfold Home.mark_at at 1. destruct (Z.eqb_spec k i); [lia |].
      rewrite Hother.
      * f_equal. apply IH; [exact Hrest |]. now replace (i - (k + 1)) with (i - k - 1) by lia.
      * intros E. apply Hnotin. rewrite E. apply in_map. now apply (get_In arr (i - k - 1)).
Qed.

Lemma reset_after_mark (i : Z) (a r : bool) (arr : list OutfitSuggestion) :
  forall k, Js.map_from (Home.reset_at i) k (Js.map_from (Home.mark_at i a r) k arr)
            = Js.map_from (Home.reset_at i) k arr.
Proof.
  induction arr as [| o arr IH]; intros k; simpl; [reflexivity |].
  rewrite IH. f_equal. unfold Home.reset_at, Home.mark_at.
  now destruct (k =? i).
Qed.

(** Resetting the position of [current] is invisible to a reader [g] that
    does not tell [current] from its reset version. *)
Lemma reset_invisible {B : Type} (g : OutfitSuggestion -> B)
      (current : OutfitSuggestion) (i : Z) :
  g (with_flags current false false) = g current ->
  forall (arr : list OutfitSuggestion) (k : Z),
    Js.get arr (i - k) = Some current ->
    map g (Js.map_from (Home.reset_at i) k arr) = map g arr.
Proof.
  intros Hg. induction arr as [| o arr IH]; intros k Hget; simpl; [reflexivity |].
  pose proof (get_Some_range _ _ _ Hget) as Hrange.
  destruct (Z.eq_dec i k) as [-> | Hik].
  - rewrite Z.sub_diag in Hget. injection Hget as ->.
    unfold Home.reset_at at 1. rewrite Z.eqb_refl, Hg. f_equal.
    rewrite reset_at_mark_at, map_from_mark_after by lia. reflexivity.
  - rewrite get_shift in Hget by lia.
    unfold Home.reset_at at 1. destruct (Z.eqb_spec k i); [lia |].
    f_equal. apply IH. now replace (i - (k + 1)) with (i - k - 1) by lia.
Qed.

Lemma with_flags_same (o : OutfitSuggestion) (a r : bool) :
  isAccepted o = Some a -> isRejected o = Some r -> with_flags o a r = o.
Proof. destruct o; simpl. now intros -> ->. Qed.

Lemma normalise_undecided (o : OutfitSuggestion) :
  Home.undecided o -> Home.normalise (with_flags o false false) = Home.normalise o.
Proof. unfold Home.undecided, Home.normalise. simpl. now intros [-> ->]. Qed.

(** A swipe, the end of its transition, then [undo]. *)
Lemma swipe_timeout_undo (s s1 : Home.Screen) (f : OutfitSuggestion -> OutfitSuggestion)
      (acc1 : list OutfitSuggestion) (act : Home.Action) (current : OutfitSuggestion) :
  Js.get (Home.outfits s) (Home.activeIndex s) = Some current ->
  s1 = {| Home.outfits := map f (Home.outfits s);
          Home.activeIndex := Home.activeIndex s;
          Home.history := Home.history s ++
                          [ {| Home.index := Home.activeIndex s; Home.action := act |} ];
          Home.isProcessing := true;
          Home.accepted := acc1;
          Home.timers := [Home.AdvanceTimer] |} ->
  let s' := Home.undo (Home.fire s1) in
  Home.outfits s' = Js.mapi (Home.reset_at (Home.activeIndex s)) (map f (Home.outfits s))
  /\ Home.activeIndex s' = Home.activeIndex s
  /\ Home.history s' = Home.history s
  /\ Home.accepted s' = if Home.Action_eqb act Home.right
                        then Store.removeAccepted (id (f current)) acc1
                        else acc1.
Proof.
  intros Hcur -> s'. subst s'. unfold Home.fire. simpl.
  rewrite (undo_commit _ {| Home.index := Home.activeIndex s; Home.action := act |}
             (f current)).
  - simpl. rewrite drop_last_app. repeat split.
  - reflexivity.
  - simpl. apply last_entry_app.
  - simpl. rewrite get_map, Hcur. reflexivity.
Qed.

Lemma reject_undo_state (s : Home.Screen) (current : OutfitSuggestion) :
  Home.idle s ->
  Js.get (Home.outfits s) (Home.activeIndex s) = Some current ->
  NoDup (map id (Home.outfits s)) ->
  let s' := Home.run [Home.SwipeLeft; Home.Timeout; Home.Undo] s in
  Home.outfits s' = Js.mapi (Home.reset_at (Home.activeIndex s)) (Home.outfits s)
  /\ Home.activeIndex s' = Home.activeIndex s
  /\ Home.history s' = Home.history s
  /\ Home.accepted s' = Home.accepted s.
Proof.
  intros [Hguard Htimers] Hcur Hnodup. unfold Home.run. simpl.
  destruct (swipe_timeout_undo s (Home.onLeft s) (Home.reject_by_id current)
              (Home.accepted s) Home.left current Hcur) as (Ho & Hi & Hh & Ha).
  { rewrite (onLeft_commit s current Hguard Hcur), Htimers. reflexivity. }
  repeat split; trivial.
  rewrite Ho. unfold Js.mapi.
  rewrite (by_id_positional (Home.reject_by_id current) false true current
             (Home.activeIndex s) (reject_by_id_self current)
             (reject_by_id_other current) (Home.outfits s) 0 Hnodup)
    by now rewrite Z.sub_0_r.
  apply reset_after_mark.
Qed.

Lemma accept_undo_state (s : Home.Screen) (current : OutfitSuggestion) :
  Home.idle s ->
  Js.get (Home.outfits s) (Home.activeIndex s) = Some current ->
  NoDup (map id (Home.outfits s)) ->
  let s' := Home.run [Home.SwipeRight; Home.Timeout; Home.Undo] s in
  Home.outfits s' = Js.mapi (Home.reset_at (Home.activeIndex s)) (Home.outfits s)
  /\ Home.activeIndex s' = Home.activeIndex s
  /\ Home.history s' = Home.history s
  /\ Home.accepted s' =
     Store.removeAccepted (id current) (Store.addAccepted current (Home.accepted s)).
Proof.
  intros [Hguard Htimers] Hcur Hnodup. unfold Home.run. simpl.
  destruct (swipe_timeout_undo s (Home.onRight s) (Home.accept_by_id current)
              (Store.addAccepted current (Home.accepted s)) Home.right current Hcur)
    as (Ho & Hi & Hh & Ha).
  { rewrite (onRight_commit s current Hguard Hcur), Htimers. reflexivity. }
  repeat split; trivial.
  - rewrite Ho. unfold Js.mapi.
    rewrite (by_id_positional (Home.accept_by_id current) true false current
               (Home.activeIndex s) (accept_by_id_self current)
               (accept_by_id_other current) (Home.outfits s) 0 Hnodup)
      by now rewrite Z.sub_0_r.
    apply reset_after_mark.
  - rewrite Ha. simpl. now rewrite accept_by_id_self.
Qed.

Lemma remove_after_fresh_add (o : OutfitSuggestion) (cur : list OutfitSuggestion) :
  Store.has_id (id o) cur = false ->
  Store.removeAccepted (id o) (Store.addAccepted o cur) = cur.
Proof.
  intros H. rewrite (addAccepted_fresh o cur H). unfold Store.removeAccepted. simpl.
  rewrite String.eqb_refl. simpl. now apply removeAccepted_absent.
Qed.

(** C3, as the code has it. In an idle state with unique outfit ids whose
    active item is undecided, a reject, the end of its transition and then
    [undo] restore the active index, the history stack and the accepted
    collection, and leave the outfits array as it was except that the two
    flags of the active item are now written out as [false], which is the
    array itself when they were so before. The same holds for an accept
    when the accepted collection held no record with the item's id.
    [undo] on an empty history returns the state it was given. *)
Theorem undo_reverts_fresh_decision (s : Home.Screen) (current : OutfitSuggestion) :
  Home.idle s ->
  Js.get (Home.outfits s) (Home.activeIndex s) = Some current ->
  NoDup (map id (Home.outfits s)) ->
  Home.undecided current ->
  let after_reject := Home.run [Home.SwipeLeft; Home.Timeout; Home.Undo] s in
  let after_accept := Home.run [Home.SwipeRight; Home.Timeout; Home.Undo] s in
  Home.outfits after_reject =
    Js.mapi (Home.reset_at (Home.activeIndex s)) (Home.outfits s)
  /\ Home.restored_upto_flags s after_reject
  /\ (Store.has_id (id current) (Home.accepted s) = false ->
      Home.outfits after_accept =
        Js.mapi (Home.reset_at (Home.activeIndex s)) (Home.outfits s)
      /\ Home.restored_upto_flags s after_accept)
  /\ (isAccepted current = Some false -> isRejected current = Some false ->
      Home.restored s after_reject
      /\ (Store.has_id (id current) (Home.accepted s) = false ->
          Home.restored s after_accept))
  /\ (forall t : Home.Screen, Home.history t = [] -> Home.undo t = t).
Proof.
  intros Hidle Hcur Hnodup Hund after_reject after_accept.
  destruct (reject_undo_state s current Hidle Hcur Hnodup) as (Lo & Li & Lh & La).
  destruct (accept_undo_state s current Hidle Hcur Hnodup) as (Ro & Ri & Rh & Ra).
  fold after_reject in Lo, Li, Lh, La. fold after_accept in Ro, Ri, Rh, Ra.
  assert (Hflags : map Home.normalise
                       (Js.mapi (Home.reset_at (Home.activeIndex s)) (Home.outfits s))
                   = map Home.normalise (Home.outfits s)).
  { apply (reset_invisible Home.normalise current);
      [now apply normalise_undecided | now rewrite Z.sub_0_r]. }
  split; [exact Lo |]. split; [| split; [| split]].
  - unfold Home.restored_upto_flags. rewrite Lo. auto.
  - intros Hfresh. split; [exact Ro |].
    unfold Home.restored_upto_flags. rewrite Ro, Ra.
    repeat split; trivial. now apply remove_after_fresh_add.
  - intros Ha Hr.
    assert (Hsame : Js.mapi (Home.reset_at (Home.activeIndex s)) (Home.outfits s)
                    = Home.outfits s).
    { rewrite <- (map_id (Home.outfits s)) at 2.
      rewrite <- (map_id (Js.mapi _ _)).
      apply (reset_invisible (fun o => o) current);
        [now apply with_flags_same | now rewrite Z.sub_0_r]. }
    unfold Home.restored. rewrite Lo, Ro, Ra, Hsame. split; [auto |].
    intros Hfresh. repeat split; trivial. now apply remove_after_fresh_add.
  - apply undo_empty_history.
Qed.

End UndoFacts.

(** ** Doubles *)

Section Doubles.

Lemma SFltb_sides (t d : spec_float) :
  SFltb t (S754_zero false) = false ->
  SFltb d (SFopp t) = true -> SFltb t d = false.
Proof.
  unfold SFltb.
  destruct t as [st | st | | st mt et], d as [sd | sd | | sd md ed]; simpl;
    try discriminate; try reflexivity;
    try (destruct st; simpl; try discriminate; try reflexivity);
    try (destruct sd; simpl; try discriminate; try reflexivity).
Qed.

Lemma SFabs_edge (d t : spec_float) :
  SFeqb (SFabs d) t = true ->
  SFltb d (SFopp t) = false /\ SFltb t d = false.
Proof.
  unfold SFeqb, SFltb.
  destruct d as [sd | sd | | sd md ed], t as [st | st | | st mt et]; simpl;
    try discriminate; try (split; reflexivity);
    try (destruct st; simpl; try discriminate;
         destruct sd; simpl; split; reflexivity).
  destruct st; simpl; [discriminate |].
  destruct (ed ?= et)%Z eqn:Ee; try discriminate.
  destruct (Pos.compare_cont Eq md mt) eqn:Em; try discriminate. intros _.
  apply Z.compare_eq in Ee. apply Pos.compare_eq in Em. subst.
  destruct sd; simpl; rewrite ?Z.compare_refl, ?Pos.compare_cont_refl; split; reflexivity.
Qed.



(** Rounding keeps the sign it is given. *)
Lemma round_aux_sign_clear (m e : Z) (l : location) :
  Num.sign_clear (binary_round_aux prec emax false m e l) = true.
Proof.
  unfold binary_round_aux.
  destruct (shr_fexp prec emax m e l) as [mrs' e'].
  destruct (shr_fexp prec emax _ e' loc_Exact) as [mrs'' e''].
  destruct (shr_m mrs'') as [| p | p]; [reflexivity | | reflexivity].
  now destruct (e'' <=? emax - prec)%Z.
Qed.

Lemma sign_clear_cases (x : spec_float) :
  Num.sign_clear x = true ->
  x = S754_nan \/ x = S754_zero false \/ x = S754_infinity false \/
  exists m e, x = S754_finite false m e.
Proof.
  destruct x as [[] | [] | | [] m e]; simpl; try discriminate; eauto 6.
Qed.

Lemma SFmul_sign_clear (x y : spec_float) :
  Num.sign_clear x = true -> Num.sign_clear y = true ->
  Num.sign_clear (SF64mul x y) = true.
Proof.
  intros Hx Hy.
  destruct (sign_clear_cases x Hx) as [-> | [-> | [-> | (mx & ex & ->)]]];
    destruct (sign_clear_cases y Hy) as [-> | [-> | [-> | (my & ey & ->)]]];
    try reflexivity.
  apply round_aux_sign_clear.
Qed.

Lemma SFdiv_sign_clear (x y : spec_float) :
  Num.sign_clear x = true -> Num.sign_clear y = true ->
  Num.sign_clear (SF64div x y) = true.
Proof.
  intros Hx Hy.
  destruct (sign_clear_cases x Hx) as [-> | [-> | [-> | (mx & ex & ->)]]];
    destruct (sign_clear_cases y Hy) as [-> | [-> | [-> | (my & ey & ->)]]];
    try reflexivity.
  unfold SF64div, SFdiv.
  destruct (SFdiv_core_binary prec emax (Z.pos mx) ex (Z.pos my) ey) as [[mz ez] lz].
  apply round_aux_sign_clear.
Qed.

Lemma SFmul_not_below_zero (w c : spec_float) :
  SFleb (S754_zero false) w = true ->
  Num.sign_clear c = true ->
  SFltb (SF64mul w c) (S754_zero false) = false.
Proof.
  intros Hw Hc.
  destruct (sign_clear_cases c Hc) as [-> | [-> | [-> | (mc & ec & ->)]]];
    destruct w as [sw | [] | | [] mw ew]; try discriminate; try reflexivity.
  pose proof (round_aux_sign_clear (Z.pos (mw * mc)) (ew + ec) loc_Exact) as H.
  unfold SF64mul, SFmul. simpl xorb.
  destruct (sign_clear_cases _ H) as [-> | [-> | [-> | (m & e & ->)]]]; reflexivity.
Qed.

Lemma sign_clear_not_negative (x : float) :
  Num.sign_clear (Prim2SF x) = true -> (x <? 0)%float = false.
Proof.
  intros H. rewrite ltb_spec.
  destruct (sign_clear_cases _ H) as [-> | [-> | [-> | (m & e & ->)]]]; reflexivity.
Qed.

Lemma positive_sign_clear (x : float) :
  (0 <? x)%float = true -> Num.sign_clear (Prim2SF x) = true.
Proof.
  rewrite ltb_spec. change (Prim2SF 0) with (S754_zero false).
  destruct (Prim2SF x) as [s | [] | | [] m e]; simpl; try discriminate; reflexivity.
Qed.

Lemma negative_opp_sign_clear (x : float) :
  (x <? 0)%float = true -> Num.sign_clear (Prim2SF (- x)) = true.
Proof.
  rewrite ltb_spec, opp_spec. change (Prim2SF 0) with (S754_zero false).
  destruct (Prim2SF x) as [s | [] | | [] m e]; simpl; try discriminate; reflexivity.
Qed.

(** What [Math.min(1, q)] is for a [q] that is not below zero. *)
Lemma Math_min_one_range (q : float) :
  (q <? 0)%float = false ->
  (Num.Math_min 1 q <? 0)%float = false /\ (1 <? Num.Math_min 1 q)%float = false.
Proof.
  intros Hq. unfold Num.Math_min.
  change (is_nan 1) with false. cbn [orb].
  destruct (is_nan q); [split; reflexivity |].
  destruct (1 <? q)%float eqn:E1; [split; reflexivity |].
  destruct (q <? 1)%float eqn:E2; [now split |].
  change (classify 1) with PNormal. now split.
Qed.

End Doubles.

(** ** The release of a card *)

Section Release.

Local Open Scope float_scope.

Variable SCREEN_WIDTH : float.
Hypothesis width_nonneg : (0 <=? SCREEN_WIDTH) = true.

Lemma threshold_not_negative : (Card.SWIPE_THRESHOLD SCREEN_WIDTH <? 0) = false.
Proof.
  unfold Card.SWIPE_THRESHOLD. rewrite ltb_spec, mul_spec.
  change (Prim2SF 0) with (S754_zero false).
  apply SFmul_not_below_zero; [| reflexivity].
  rewrite leb_spec in width_nonneg. exact width_nonneg.
Qed.

Lemma left_excludes_right (dx : float) :
  (dx <? - Card.SWIPE_THRESHOLD SCREEN_WIDTH) = true ->
  (Card.SWIPE_THRESHOLD SCREEN_WIDTH <? dx) = false.
Proof.
  pose proof threshold_not_negative as HT.
  rewrite !ltb_spec, ?opp_spec in *. change (Prim2SF 0) with (S754_zero false) in HT.
  now apply SFltb_sides.
Qed.

Lemma release_left (dx dy : float) :
  (dx <? - Card.SWIPE_THRESHOLD SCREEN_WIDTH) = true ->
  Card.onPanResponderRelease SCREEN_WIDTH dx dy = Card.exit_left SCREEN_WIDTH dy.
Proof. intros H. unfold Card.onPanResponderRelease. now rewrite H. Qed.

Lemma release_right (dx dy : float) :
  (dx <? - Card.SWIPE_THRESHOLD SCREEN_WIDTH) = false ->
  (Card.SWIPE_THRESHOLD SCREEN_WIDTH <? dx) = true ->
  Card.onPanResponderRelease SCREEN_WIDTH dx dy = Card.exit_right SCREEN_WIDTH dy.
Proof. intros Hl Hr. unfold Card.onPanResponderRelease. now rewrite Hl, Hr. Qed.

Lemma release_neither (dx dy : float) :
  (dx <? - Card.SWIPE_THRESHOLD SCREEN_WIDTH) = false ->
  (Card.SWIPE_THRESHOLD SCREEN_WIDTH <? dx) = false ->
  Card.onPanResponderRelease SCREEN_WIDTH dx dy = Card.spring_back.
Proof. intros Hl Hr. unfold Card.onPanResponderRelease. now rewrite Hl, Hr. Qed.

Lemma exit_left_fires (dy : float) (e : Card.Effect) :
  Card.fires e (Card.exit_left SCREEN_WIDTH dy) <->
  In e Card.reset_values \/ e = Card.handleSwipeLeft.
Proof.
  unfold Card.fires. simpl. intuition congruence.
Qed.

Lemma exit_right_fires (dy : float) (e : Card.Effect) :
  Card.fires e (Card.exit_right SCREEN_WIDTH dy) <->
  In e Card.reset_values \/ e = Card.handleSwipeRight.
Proof.
  unfold Card.fires. simpl. intuition congruence.
Qed.

Lemma reset_values_no_callback :
  ~ In Card.handleSwipeLeft Card.reset_values /\
  ~ In Card.handleSwipeRight Card.reset_values.
Proof. unfold Card.reset_values. simpl. intuition discriminate. Qed.

(** C5. The release decision is taken on doubles. With [T] the double
    [SCREEN_WIDTH * 0.26] of a screen whose width is not negative: the
    completion of the animations a release starts calls the left handler
    exactly when [dx < -T], calls the right handler exactly when [dx > T],
    and in every other case -- in particular when [|dx|] equals [T] -- the
    release starts the spring back to the centre (two springs to 0 and the
    two label opacities timed to 0), whose completion calls neither. *)
Theorem release_decides_by_threshold (dx dy : float) :
  let T := Card.SWIPE_THRESHOLD SCREEN_WIDTH in
  let r := Card.onPanResponderRelease SCREEN_WIDTH dx dy in
  T = SCREEN_WIDTH * 0.26
  /\ (Card.fires Card.handleSwipeLeft r <-> (dx <? - T) = true)
  /\ (Card.fires Card.handleSwipeRight r <-> (T <? dx) = true)
  /\ ((dx <? - T) = false -> (T <? dx) = false ->
      r = Card.spring_back
      /\ Card.animations r
         = [ Card.spring Card.translateX 0; Card.spring Card.translateY 0;
             Card.timing Card.likeOpacity 0 200%Z;
             Card.timing Card.nopeOpacity 0 200%Z ]
      /\ Card.on_complete r = []
      /\ ~ Card.fires Card.handleSwipeLeft r
      /\ ~ Card.fires Card.handleSwipeRight r)
  /\ ((abs dx =? T) = true -> r = Card.spring_back /\ Card.on_complete r = []).
Proof.
  intros T r. subst r.
  destruct reset_values_no_callback as [NoL NoR].
  assert (Hedge : (abs dx =? T) = true ->
                  Card.onPanResponderRelease SCREEN_WIDTH dx dy = Card.spring_back
                  /\ Card.on_complete (Card.onPanResponderRelease SCREEN_WIDTH dx dy) = []).
  { intros H.
    rewrite FloatAxioms.eqb_spec, abs_spec in H. apply SFabs_edge in H as [Hl Hr].
    rewrite <- opp_spec, <- ltb_spec in Hl. rewrite <- ltb_spec in Hr.
    now rewrite (release_neither dx dy Hl Hr). }
  split; [reflexivity |].
  assert (Hmain :
            (Card.fires Card.handleSwipeLeft (Card.onPanResponderRelease SCREEN_WIDTH dx dy)
             <-> (dx <? - T) = true)
            /\ (Card.fires Card.handleSwipeRight
                           (Card.onPanResponderRelease SCREEN_WIDTH dx dy)
                <-> (T <? dx) = true)
            /\ ((dx <? - T) = false -> (T <? dx) = false ->
                Card.onPanResponderRelease SCREEN_WIDTH dx dy = Card.spring_back)).
  { destruct (dx <? - T) eqn:Hl.
    - pose proof (left_excludes_right dx Hl) as Hr. fold T in Hr.
      rewrite (release_left dx dy Hl), Hr. rewrite !exit_left_fires.
      split; [| split].
      + split; [reflexivity | intros _; now right].
      + split; [intros [H | H]; [tauto | discriminate] | discriminate].
      + discriminate.
    - destruct (T <? dx) eqn:Hr.
      + rewrite (release_right dx dy Hl Hr). rewrite !exit_right_fires.
        split; [| split].
        * split; [intros [H | H]; [tauto | discriminate] | discriminate].
        * split; [reflexivity | intros _; now right].
        * discriminate.
      + rewrite (release_neither dx dy Hl Hr). unfold Card.fires. simpl.
        split; [| split].
        * split; [tauto | discriminate].
        * split; [tauto | discriminate].
        * reflexivity. }
  destruct Hmain as (HL & HR & Hback).
  split; [exact HL |]. split; [exact HR |]. split; [| exact Hedge].
  intros Hl Hr. rewrite (Hback Hl Hr). unfold Card.fires. simpl.
  repeat split; tauto.
Qed.

End Release.

(** ** The window of the carousel *)

Section Window.

Lemma interval_empty (lo hi : Z) : hi < lo -> Arc.interval lo hi = [].
Proof.
  intros H. unfold Arc.interval. now replace (Z.to_nat (hi + 1 - lo)) with 0%nat by lia.
Qed.

Lemma interval_cons (lo hi : Z) :
  lo <= hi -> Arc.interval lo hi = lo :: Arc.interval (lo + 1) hi.
Proof.
  intros H. unfold Arc.interval.
  replace (Z.to_nat (hi + 1 - lo)) with (S (Z.to_nat (hi + 1 - (lo + 1)))) by lia.
  simpl. f_equal; [lia |].
  rewrite <- seq_shift, map_map. apply map_ext. intros k. lia.
Qed.

Lemma In_interval (lo hi i : Z) : In i (Arc.interval lo hi) <-> lo <= i <= hi.
Proof.
  unfold Arc.interval. rewrite in_map_iff. split.
  - intros (k & <- & Hk). apply in_seq in Hk. lia.
  - intros Hi. exists (Z.to_nat (i - lo)). split; [lia |]. apply in_seq. lia.
Qed.

Lemma length_interval (lo hi : Z) :
  List.length (Arc.interval lo hi) = Z.to_nat (hi + 1 - lo).
Proof. unfold Arc.interval. now rewrite List.length_map, length_seq. Qed.

(** The loop appends the rest of the interval to what it was given. *)
Lemma push_from_interval (i end_ : Z) (idxs : list Z) :
  Arc.push_from i end_ idxs = idxs ++ Arc.interval i end_.
Proof.
  funelim (Arc.push_from i end_ idxs).
  - rewrite H. rewrite <- app_assoc. simpl. now rewrite <- interval_cons.
  - rewrite interval_empty by lia. now rewrite app_nil_r.
Qed.

Lemma visible_interval (n activeIndex : Z) :
  Arc.visible n activeIndex =
  Arc.interval (Arc.window_start activeIndex) (Arc.window_end n activeIndex).
Proof. unfold Arc.visible. now rewrite push_from_interval. Qed.

(** Whatever the active index, the carousel offers existing items only. *)
Lemma visible_in_range (n activeIndex i : Z) :
  In i (Arc.visible n activeIndex) -> 0 <= i <= n - 1.
Proof.
  rewrite visible_interval, In_interval.
  unfold Arc.window_start, Arc.window_end, Arc.visibleRange. lia.
Qed.

Lemma count_in_interval (a : Z) :
  forall (k : nat) (lo hi : Z),
    Z.to_nat (hi + 1 - lo) = k ->
    List.length (filter (fun i => i =? a) (Arc.interval lo hi)) =
    if (lo <=? a) && (a <=? hi) then 1%nat else 0%nat.
Proof.
  induction k as [| k IH]; intros lo hi Hk.
  - rewrite interval_empty by lia. simpl.
    destruct (Z.leb_spec lo a), (Z.leb_spec a hi); simpl; trivial; lia.
  - rewrite interval_cons by lia. cbn [filter].
    pose proof (IH (lo + 1) hi) as Htail.
    destruct (Z.eqb_spec lo a) as [E | Hne]; cbn [List.length];
      rewrite Htail by lia;
      destruct (Z.leb_spec (lo + 1) a), (Z.leb_spec lo a), (Z.leb_spec a hi);
      simpl; trivial; lia.
Qed.

Lemma opacity_monotone (d1 d2 : Z) :
  0 <= d1 <= d2 -> (Arc.opacity_of d2 <= Arc.opacity_of d1)%Q.
Proof.
  intros H. unfold Arc.opacity_of.
  destruct (Z.eqb_spec d1 0), (Z.eqb_spec d1 1), (Z.eqb_spec d1 2),
           (Z.eqb_spec d2 0), (Z.eqb_spec d2 1), (Z.eqb_spec d2 2);
    try lia; lra.
Qed.

Lemma opacity_far (d : Z) : 3 <= d -> Arc.opacity_of d = 0.35%Q.
Proof.
  intros H. unfold Arc.opacity_of.
  destruct (Z.eqb_spec d 0), (Z.eqb_spec d 1), (Z.eqb_spec d 2); trivial; lia.
Qed.

Context {A : Type}.
Variable items : list A.
Variable activeIndex : Z.

Lemma realIndex_map_from (l : list Z) :
  forall k, map Arc.realIndex (Js.map_from (Arc.thumb items activeIndex) k l) = l.
Proof. induction l as [| i l IH]; intros k; simpl; [reflexivity |]. now rewrite IH. Qed.

Lemma active_map_from (l : list Z) :
  forall k, List.length (filter Arc.isActive (Js.map_from (Arc.thumb items activeIndex) k l))
            = List.length (filter (fun i => i =? activeIndex) l).
Proof.
  induction l as [| i l IH]; intros k; simpl; [reflexivity |].
  destruct (i =? activeIndex); simpl; now rewrite IH.
Qed.

(** C6. For an active index within the [n] items: the visible window is
    the run of consecutive indices from [max(0, activeIndex - 4)] to
    [min(n - 1, activeIndex + 4)], hence of at most nine thumbnails; the
    opacity of a thumbnail is 1, 0.75, 0.55 and 0.35 at distance 0, 1, 2
    and 3 or more from the active index and never grows with the distance;
    a thumbnail is drawn at the large size with the ring exactly when it
    is the active one, and exactly one drawn thumbnail is. *)
Theorem carousel_window_and_opacity :
  0 <= activeIndex <= Js.length items - 1 ->
  let n := Js.length items in
  let lo := Z.max 0 (activeIndex - 4) in
  let hi := Z.min (n - 1) (activeIndex + 4) in
  let drawn := Arc.render items activeIndex in
  Arc.visible n activeIndex = Arc.interval lo hi
  /\ (forall i, In i (Arc.visible n activeIndex) <-> lo <= i <= hi)
  /\ (List.length (Arc.visible n activeIndex) <= 9)%nat
  /\ (Arc.opacity_of 0 = 1%Q /\ Arc.opacity_of 1 = 0.75%Q /\
      Arc.opacity_of 2 = 0.55%Q /\ forall d, 3 <= d -> Arc.opacity_of d = 0.35%Q)
  /\ (forall d1 d2, 0 <= d1 <= d2 -> (Arc.opacity_of d2 <= Arc.opacity_of d1)%Q)
  /\ map Arc.realIndex drawn = Arc.visible n activeIndex
  /\ (forall t, In t drawn ->
        Arc.opacity t = Arc.opacity_of (Z.abs (Arc.realIndex t - activeIndex))
        /\ (Arc.isActive t = true <-> Arc.realIndex t = activeIndex)
        /\ Arc.ring t = Arc.isActive t
        /\ Arc.size t = (if Arc.isActive t then Arc.CENTER else Arc.THUMB)
        /\ Arc.item t <> None)
  /\ List.length (filter Arc.isActive drawn) = 1%nat
  /\ Arc.THUMB < Arc.CENTER.
Proof.
  intros Hidx n lo hi drawn. subst n drawn.
  assert (Hvis : Arc.visible (Js.length items) activeIndex = Arc.interval lo hi)
    by apply visible_interval.
  split; [exact Hvis |]. split; [| split; [| split; [| split; [| split; [| split; [| split]]]]]].
  - intros i. rewrite Hvis. apply In_interval.
  - rewrite Hvis, length_interval. subst lo hi. lia.
  - repeat split. apply opacity_far.
  - apply opacity_monotone.
  - apply realIndex_map_from.
  - intros t Ht. unfold Arc.render, Js.mapi in Ht.
    apply In_map_from in Ht as (i & k & Hi & _ & ->). simpl.
    repeat split; try apply Z.eqb_eq.
    apply visible_in_range in Hi. destruct (get_in_range items i Hi) as (x & ->).
    discriminate.
  - unfold Arc.render, Js.mapi. rewrite active_map_from, Hvis.
    rewrite (count_in_interval activeIndex _ lo hi eq_refl).
    subst lo hi. destruct (Z.leb_spec (Z.max 0 (activeIndex - 4)) activeIndex);
      destruct (Z.leb_spec activeIndex (Z.min (Js.length items - 1) (activeIndex + 4)));
      simpl; trivial; lia.
  - reflexivity.
Qed.

End Window.

(** ** The properties on the mock data *)

Section OnMockData.

Ltac distinct_strings :=
  repeat constructor; simpl; intuition discriminate.

Lemma mock_ids_unique : NoDup (map id Home.mockOutfits).
Proof. vm_compute. distinct_strings. Qed.

Lemma mock_exclusive : Forall Home.exclusive Home.mockOutfits.
Proof.
  unfold Home.mockOutfits. repeat constructor; intros [H _]; discriminate.
Qed.

Lemma revisited_reachable : Home.reachable Home.first_render Home.revisited.
Proof.
  unfold Home.revisited. apply reachable_run; [| constructor].
  intros i Hi. simpl in Hi.
  destruct Hi as [Hi | [Hi | [Hi | []]]]; try discriminate.
  injection Hi as <-. vm_compute. split; discriminate.
Qed.

Example mock_images_narrowed :
  map imageUri (firstn 1 Home.mockOutfits) =
  [ "https://images.unsplash.com/photo-1520975916090-3105956dac38?w=900&auto=format&fit=crop"%string ].
Proof. reflexivity. Qed.

Example reject_then_undo_on_first_render :
  map (fun o => (id o, isAccepted o, isRejected o))
      (firstn 2 (Home.outfits
                   (Home.run [Home.SwipeLeft; Home.Timeout; Home.Undo] Home.first_render)))
  = [ ("1"%string, Some false, Some false); ("2"%string, None, None) ].
Proof. reflexivity. Qed.

Example undo_before_timeout_is_ignored :
  Home.run [Home.SwipeRight; Home.Undo] Home.first_render
  = Home.run [Home.SwipeRight] Home.first_render.
Proof. reflexivity. Qed.

Example window_near_the_end : Arc.visible 8 5 = [1; 2; 3; 4; 5; 6; 7].
Proof. reflexivity. Qed.

Example window_in_the_middle : Arc.visible 20 10 = [6; 7; 8; 9; 10; 11; 12; 13; 14].
Proof. reflexivity. Qed.

Example release_on_the_threshold :
  Card.onPanResponderRelease 375 (-97.5) 10 = Card.spring_back.
Proof. reflexivity. Qed.

(** The threshold is the rounded product: on a screen 360 wide it is the
    double above 93.6, and a release at that very [dx] springs back while
    one at the next double commits. *)
Example threshold_is_the_rounded_product :
  Card.SWIPE_THRESHOLD 360 = 0x1.7666666666667p+6%float /\
  (93.6 <? Card.SWIPE_THRESHOLD 360)%float = true /\
  Card.onPanResponderRelease 360 0x1.7666666666667p+6 0 = Card.spring_back /\
  Card.onPanResponderRelease 360 0x1.7666666666668p+6 0 = Card.exit_right 360 0.
Proof. repeat split. Qed.

Lemma onRight_accepts_and_persists_witness :
  Home.isProcessing Home.first_render = false /\
  Home.history (Home.onRight Home.first_render) =
    [ {| Home.index := 0; Home.action := Home.right |} ] /\
  map id (Home.accepted (Home.onRight Home.first_render)) = [ "1"%string ] /\
  option_map (fun o => (isAccepted o, isRejected o))
             (Js.get (Home.outfits (Home.onRight Home.first_render)) 0)
  = Some (Some true, Some false).
Proof.
  split; [reflexivity |].
  destruct (onRight_accepts_and_persists Home.first_render _ eq_refl eq_refl)
    as (_ & _ & Hh & Ha & _ & _ & (marked & Hget & Hacc & Hrej & _) & _).
  split; [exact Hh |]. split; [rewrite Ha; reflexivity |].
  change (Home.activeIndex Home.first_render) with 0 in Hget.
  rewrite Hget. simpl. now rewrite Hacc, Hrej.
Defined.

Lemma onLeft_rejects_witness :
  Home.isProcessing Home.first_render = false /\
  Home.history (Home.onLeft Home.first_render) =
    [ {| Home.index := 0; Home.action := Home.left |} ] /\
  Home.accepted (Home.onLeft Home.first_render) = [] /\
  option_map (fun o => (isAccepted o, isRejected o))
             (Js.get (Home.outfits (Home.onLeft Home.first_render)) 0)
  = Some (Some false, Some true).
Proof.
  split; [reflexivity |].
  destruct (onLeft_rejects Home.first_render _ eq_refl eq_refl)
    as (_ & _ & Hh & Ha & (marked & Hget & Hrej & Hacc & _)).
  split; [exact Hh |]. split; [exact Ha |].
  change (Home.activeIndex Home.first_render) with 0 in Hget.
  rewrite Hget. simpl. now rewrite Hacc, Hrej.
Defined.

Lemma undo_reverts_fresh_decision_witness :
  Home.idle Home.first_render /\
  Home.restored_upto_flags Home.first_render
    (Home.run [Home.SwipeLeft; Home.Timeout; Home.Undo] Home.first_render) /\
  Home.restored_upto_flags Home.first_render
    (Home.run [Home.SwipeRight; Home.Timeout; Home.Undo] Home.first_render).
Proof.
  assert (Hidle : Home.idle Home.first_render) by (split; reflexivity).
  split; [exact Hidle |].
  destruct (undo_reverts_fresh_decision Home.first_render _ Hidle eq_refl
              mock_ids_unique (conj eq_refl eq_refl)) as (_ & Hl & Hr & _).
  split; [exact Hl | exact (proj2 (Hr eq_refl))].
Defined.

(** C3 as the specification words it fails on a state the screen reaches:
    the first suggestion is accepted, the user comes back to it through the
    carousel and accepts it again; the [undo] that follows the transition
    clears the flag and the persisted record that the first accept had
    set, and an [undo] pressed before the transition ends is ignored. *)
Lemma undo_reverts_counterexample :
  Home.reachable Home.first_render Home.revisited /\
  Home.idle Home.revisited /\
  (exists current,
      Js.get (Home.outfits Home.revisited) (Home.activeIndex Home.revisited)
      = Some current) /\
  ~ Home.restored Home.revisited
      (Home.run [Home.SwipeRight; Home.Timeout; Home.Undo] Home.revisited) /\
  ~ Home.restored Home.revisited
      (Home.run [Home.SwipeRight; Home.Undo] Home.revisited).
Proof.
  split; [exact revisited_reachable |].
  split; [split; reflexivity |].
  split; [eexists; reflexivity |].
  split.
  - intros (_ & _ & _ & Hacc). vm_compute in Hacc. discriminate.
  - intros (_ & _ & Hhist & _). vm_compute in Hhist. discriminate.
Qed.

Lemma index_never_exceeds_bounds_witness :
  Home.mockOutfits <> [] /\
  0 <= Home.activeIndex Home.revisited <= Js.length Home.mockOutfits - 1.
Proof.
  assert (Hne : Home.mockOutfits <> []) by discriminate.
  split; [exact Hne |].
  exact (proj1 (proj2 (index_never_exceeds_bounds Home.mockOutfits Store.accepted_init
                         Home.revisited Hne revisited_reachable))).
Defined.

Lemma release_decides_by_threshold_witness :
  (0 <=? 360)%float = true /\
  Card.fires Card.handleSwipeLeft (Card.onPanResponderRelease 360 (-100) 0) /\
  ~ Card.fires Card.handleSwipeRight
      (Card.onPanResponderRelease 360 93.60000000000001 0).
Proof.
  assert (Hw : (0 <=? 360)%float = true) by reflexivity.
  split; [exact Hw |]. split.
  - destruct (release_decides_by_threshold 360 Hw (-100) 0) as (_ & H & _).
    apply H. reflexivity.
  - destruct (release_decides_by_threshold 360 Hw 93.60000000000001 0)
      as (_ & _ & H & _).
    intros Hf. apply H in Hf. discriminate Hf.
Defined.

Lemma carousel_window_and_opacity_witness :
  0 <= 2 <= Js.length Home.mockOutfits - 1 /\
  Arc.visible (Js.length Home.mockOutfits) 2 = Arc.interval 0 6.
Proof.
  assert (Hidx : 0 <= 2 <= Js.length Home.mockOutfits - 1) by (vm_compute; split; discriminate).
  split; [exact Hidx |].
  exact (proj1 (carousel_window_and_opacity Home.mockOutfits 2 Hidx)).
Defined.

Lemma accepted_ids_unique_witness :
  (exists x, In x Home.mockOutfits /\ id x = "3"%string) /\
  Store.addAccepted (Home.suggestion "3" "" "" "" "" "" ("", "", ""))%string
                    Home.mockOutfits
  = Home.mockOutfits.
Proof.
  assert (H : exists x, In x Home.mockOutfits /\ id x = "3"%string).
  { eexists. split; [right; right; left; reflexivity | reflexivity]. }
  split; [exact H |].
  exact (proj2 accepted_ids_unique
               (Home.suggestion "3" "" "" "" "" "" ("", "", ""))%string
               Home.mockOutfits H).
Defined.

Lemma guard_debounces_witness :
  Home.isProcessing (Home.onRight Home.first_render) = true /\
  Home.onLeft (Home.onRight Home.first_render) = Home.onRight Home.first_render.
Proof.
  split; [reflexivity |].
  exact (proj1 (guard_debounces (Home.onRight Home.first_render) eq_refl)).
Defined.

Lemma out_of_range_returns_unchanged_witness :
  Js.get (Home.outfits Home.nothing_to_show) (Home.activeIndex Home.nothing_to_show) = None /\
  Home.onLeft Home.nothing_to_show = Home.nothing_to_show /\
  Home.undo Home.dangling_record = Home.dangling_record /\
  Home.isProcessing (Home.onRight Home.nothing_to_show) = false.
Proof.
  destruct out_of_range_returns_unchanged as (Hswipe & Hundo & Hreach).
  split; [reflexivity |].
  split; [exact (proj1 (Hswipe Home.nothing_to_show eq_refl eq_refl)) |].
  split; [exact (proj1 (Hundo Home.dangling_record _ eq_refl eq_refl eq_refl)) |].
  destruct (Hreach [] Store.accepted_init Home.nothing_to_show
                   (Home.reach_init _) eq_refl) as (_ & _ & _ & H).
  exact H.
Defined.

Lemma flags_never_both_true_witness :
  Forall Home.exclusive Home.mockOutfits /\
  Forall Home.exclusive (Home.outfits Home.revisited).
Proof.
  split; [exact mock_exclusive |].
  exact (proj1 flags_never_both_true Home.mockOutfits Store.accepted_init Home.revisited
               mock_exclusive revisited_reachable).
Defined.

End OnMockData.

(** * Further properties *)

(** ** The persisted collection as a set of ids *)

Section StoreAlgebra.

Lemma has_id_cons (i : string) (x : OutfitSuggestion) (cur : list OutfitSuggestion) :
  Store.has_id i (x :: cur) = String.eqb (id x) i || Store.has_id i cur.
Proof. reflexivity. Qed.

Lemma has_id_remove (i j : string) (cur : list OutfitSuggestion) :
  Store.has_id i (Store.removeAccepted j cur)
  = negb (String.eqb j i) && Store.has_id i cur.
Proof.
  unfold Store.removeAccepted.
  induction cur as [| x cur IH]; simpl; [now rewrite andb_false_r |].
  fold (Store.has_id i cur) in *.
  fold (Store.has_id i (filter (fun x => negb (String.eqb (id x) j)) cur)) in *.
  destruct (String.eqb_spec (id x) j) as [Exj | Nxj]; simpl.
  - rewrite IH. subst j. destruct (String.eqb_spec (id x) i); simpl; reflexivity.
  - fold (Store.has_id i (filter (fun x => negb (String.eqb (id x) j)) cur)).
    rewrite IH.
    destruct (String.eqb_spec (id x) i) as [Exi | Nxi]; simpl; [| reflexivity].
    subst i. destruct (String.eqb_spec j (id x)); [congruence | reflexivity].
Qed.

Lemma has_id_add (i : string) (o : OutfitSuggestion) (cur : list OutfitSuggestion) :
  Store.has_id i (Store.addAccepted o cur)
  = String.eqb (id o) i || Store.has_id i cur.
Proof.
  unfold Store.addAccepted. destruct (Store.has_id (id o) cur) eqn:E; [| reflexivity].
  destruct (String.eqb_spec (id o) i) as [<- | N]; simpl; [exact E | reflexivity].
Qed.

(** X1. [removeAccepted i] keeps, in their order, exactly the records
    whose id is not [i]: no record with id [i] is left, removing twice is
    removing once, removing an id that is not there returns the array as
    it was, and wherever the array is cut around a record, the result is
    what is kept of the part before it, then the record unless its id is
    [i], then what is kept of the part after it. *)
Theorem removeAccepted_removes_exactly (i : string) (cur : list OutfitSuggestion) :
  (forall x, In x (Store.removeAccepted i cur) <-> In x cur /\ id x <> i)
  /\ Store.has_id i (Store.removeAccepted i cur) = false
  /\ Store.removeAccepted i (Store.removeAccepted i cur) = Store.removeAccepted i cur
  /\ (Store.has_id i cur = false -> Store.removeAccepted i cur = cur)
  /\ (forall before x after,
        cur = before ++ x :: after ->
        Store.removeAccepted i cur
        = Store.removeAccepted i before
          ++ (if String.eqb (id x) i then [] else [x])
          ++ Store.removeAccepted i after).
Proof.
  split; [| split; [| split; [| split]]];
    [ | | | | intros before x after ->; unfold Store.removeAccepted;
              rewrite filter_app; simpl;
              now destruct (String.eqb (id x) i) ].
  - intros x. unfold Store.removeAccepted. rewrite filter_In.
    destruct (String.eqb_spec (id x) i); simpl; intuition congruence.
  - apply removeAccepted_has_id.
  - apply removeAccepted_absent, removeAccepted_has_id.
  - apply removeAccepted_absent.
Qed.

(** X2. Removing the id of an outfit right after adding it gives what
    removing it from the original array gives, which is the original array
    when that id was not in it; and adding the same outfit twice is adding
    it once. *)
Theorem add_then_remove (o : OutfitSuggestion) (cur : list OutfitSuggestion) :
  Store.removeAccepted (id o) (Store.addAccepted o cur) = Store.removeAccepted (id o) cur
  /\ (Store.has_id (id o) cur = false ->
      Store.removeAccepted (id o) (Store.addAccepted o cur) = cur)
  /\ Store.addAccepted o (Store.addAccepted o cur) = Store.addAccepted o cur.
Proof.
  assert (H : Store.removeAccepted (id o) (Store.addAccepted o cur)
              = Store.removeAccepted (id o) cur).
  { unfold Store.addAccepted. destruct (Store.has_id (id o) cur); [reflexivity |].
    unfold Store.removeAccepted. simpl. now rewrite String.eqb_refl. }
  split; [exact H |]. split.
  - intros Hfresh. rewrite H. now apply removeAccepted_absent.
  - apply addAccepted_present, addAccepted_has_id.
Qed.

(** X3. An add and a remove that concern different ids can be swapped. *)
Theorem add_remove_commute (o : OutfitSuggestion) (i : string)
        (cur : list OutfitSuggestion) :
  id o <> i ->
  Store.addAccepted o (Store.removeAccepted i cur)
  = Store.removeAccepted i (Store.addAccepted o cur).
Proof.
  intros Hne. unfold Store.addAccepted at 1. rewrite has_id_remove.
  assert (Hi : String.eqb i (id o) = false).
  { destruct (String.eqb_spec i (id o)); congruence. }
  rewrite Hi. simpl. unfold Store.addAccepted.
  destruct (Store.has_id (id o) cur); [reflexivity |].
  unfold Store.removeAccepted. simpl.
  destruct (String.eqb_spec (id o) i); [congruence | reflexivity].
Qed.

(** X4. The store is a set of ids: whether a record with id [i] is in the
    array after a sequence of calls is decided by the calls alone, an add
    of [i] putting it in, a remove of [i] or a clear taking it out and
    every other call leaving it as it was. *)
Theorem store_is_a_set_of_ids (i : string) (calls : list Store.Call) :
  forall cur : list OutfitSuggestion,
    Store.has_id i (Store.run calls cur)
    = fold_left (Store.member_step i) calls (Store.has_id i cur).
Proof.
  unfold Store.run. induction calls as [| c calls IH]; intros cur; simpl; [reflexivity |].
  rewrite IH. f_equal. destruct c; simpl.
  - apply has_id_add.
  - apply has_id_remove.
  - reflexivity.
Qed.

End StoreAlgebra.

(** ** More invariants of the screen *)

Section ScreenInvariants.

Lemma step_settled (s : Home.Screen) (e : Home.Event) :
  Home.settled s -> Home.settled (Home.step e s).
Proof.
  intros Hs. destruct e; simpl.
  - destruct (swipe_cases s) as [[-> _] | (current & Hguard & Hcur)]; [exact Hs |].
    rewrite (onLeft_commit s current Hguard Hcur). right. simpl.
    destruct Hs as [[_ ->] | [Hset _]]; [| congruence].
    split; [reflexivity | now exists Home.AdvanceTimer].
  - destruct (swipe_cases s) as [[_ ->] | (current & Hguard & Hcur)]; [exact Hs |].
    rewrite (onRight_commit s current Hguard Hcur). right. simpl.
    destruct Hs as [[_ ->] | [Hset _]]; [| congruence].
    split; [reflexivity | now exists Home.AdvanceTimer].
  - destruct (undo_cases s) as [-> | (last & item & Hguard & Hlast & _ & Hitem)];
      [exact Hs |].
    rewrite (undo_commit s last item Hguard Hlast Hitem). right. simpl.
    destruct Hs as [[_ ->] | [Hset _]]; [| congruence].
    split; [reflexivity | now exists Home.ReleaseTimer].
  - exact Hs.
  - unfold Home.onItemPress. now destruct (negb (Home.isProcessing s)).
  - unfold Home.fire. destruct Hs as [[Hg Ht] | [Hg [t Ht]]]; rewrite Ht.
    + left. now split.
    + left. destruct t; simpl; rewrite Ht; now split.
Qed.

Lemma reachable_settled (items acc : list OutfitSuggestion) (s : Home.Screen) :
  Home.reachable (Home.initial items acc) s -> Home.settled s.
Proof.
  apply reachable_invariant.
  - left. now split.
  - intros t e Ht _. now apply step_settled.
Qed.

Lemma settled_fire_idle (s : Home.Screen) : Home.settled s -> Home.idle (Home.fire s).
Proof.
  unfold Home.fire, Home.idle. intros [[Hg Ht] | [Hg [t Ht]]]; rewrite Ht.
  - now split.
  - destruct t; simpl; rewrite Ht; now split.
Qed.

(** X5. In every state reachable from a first render at most one handler
    call is in flight: the guard is set exactly when a timeout is pending,
    there is never more than one, and the next timeout to expire leaves the
    screen idle, so the guard cannot stay set. *)
Theorem one_call_in_flight (items acc : list OutfitSuggestion) (s : Home.Screen) :
  Home.reachable (Home.initial items acc) s ->
  Home.settled s
  /\ (Home.isProcessing s = true <-> Home.timers s <> [])
  /\ (List.length (Home.timers s) <= 1)%nat
  /\ Home.idle (Home.fire s).
Proof.
  intros Hreach. pose proof (reachable_settled items acc s Hreach) as Hs.
  split; [exact Hs |]. split; [| split].
  - destruct Hs as [[Hg Ht] | [Hg [t Ht]]]; rewrite Hg, Ht; split; congruence.
  - destruct Hs as [[_ Ht] | [_ [t Ht]]]; rewrite Ht; simpl; lia.
  - now apply settled_fire_idle.
Qed.

Lemma map_of_map_from {B : Type} (g : OutfitSuggestion -> B)
      (f : OutfitSuggestion -> Z -> OutfitSuggestion) (arr : list OutfitSuggestion) :
  (forall o idx, g (f o idx) = g o) ->
  forall k, map g (Js.map_from f k arr) = map g arr.
Proof.
  intros Hg. induction arr as [| o arr IH]; intros k; simpl; [reflexivity |].
  now rewrite Hg, IH.
Qed.

Lemma step_sans_flags (s : Home.Screen) (e : Home.Event) :
  map Home.sans_flags (Home.outfits (Home.step e s))
  = map Home.sans_flags (Home.outfits s).
Proof.
  destruct e; simpl.
  - destruct (swipe_cases s) as [[-> _] | (current & Hguard & Hcur)]; [reflexivity |].
    rewrite (onLeft_commit s current Hguard Hcur). simpl. rewrite map_map.
    apply map_ext. intros o. unfold Home.reject_by_id.
    now destruct (String.eqb (id o) (id current)).
  - destruct (swipe_cases s) as [[_ ->] | (current & Hguard & Hcur)]; [reflexivity |].
    rewrite (onRight_commit s current Hguard Hcur). simpl. rewrite map_map.
    apply map_ext. intros o. unfold Home.accept_by_id.
    now destruct (String.eqb (id o) (id current)).
  - destruct (undo_cases s) as [-> | (last & item & Hguard & Hlast & _ & Hitem)];
      [reflexivity |].
    rewrite (undo_commit s last item Hguard Hlast Hitem). simpl.
    apply map_of_map_from. intros o idx. unfold Home.reset_at.
    now destruct (idx =? Home.index last).
  - reflexivity.
  - unfold Home.onItemPress. now destruct (negb (Home.isProcessing s)).
  - now rewrite fire_outfits.
Qed.

Lemma reachable_sans_flags (items acc : list OutfitSuggestion) (s : Home.Screen) :
  Home.reachable (Home.initial items acc) s ->
  map Home.sans_flags (Home.outfits s) = map Home.sans_flags items.
Proof.
  apply (reachable_invariant
           (fun t => map Home.sans_flags (Home.outfits t) = map Home.sans_flags items));
    [reflexivity |].
  intros t e Ht _. now rewrite step_sans_flags.
Qed.

Lemma field_through_sans_flags {B : Type} (g : OutfitSuggestion -> B)
      (l l' : list OutfitSuggestion) :
  (forall o, g (Home.sans_flags o) = g o) ->
  map Home.sans_flags l = map Home.sans_flags l' ->
  map g l = map g l'.
Proof.
  intros Hg H.
  assert (Hvia : forall m, map g (map Home.sans_flags m) = map g m).
  { intros m. rewrite map_map. apply map_ext. exact Hg. }
  rewrite <- (Hvia l), <- (Hvia l'). now rewrite H.
Qed.

(** X6. The handlers write the two flags and nothing else: in every state
    reachable from a first render the outfits array is the first one up to
    the flags, so the ids, the image urls, the gradients and the order of
    the outfits never change. *)
Theorem handlers_only_write_flags (items acc : list OutfitSuggestion) (s : Home.Screen) :
  Home.reachable (Home.initial items acc) s ->
  map Home.sans_flags (Home.outfits s) = map Home.sans_flags items
  /\ map id (Home.outfits s) = map id items
  /\ map imageUri (Home.outfits s) = map imageUri items
  /\ map bgGradient (Home.outfits s) = map bgGradient items.
Proof.
  intros Hreach. pose proof (reachable_sans_flags items acc s Hreach) as H.
  split; [exact H |].
  repeat split; apply field_through_sans_flags; trivial.
Qed.

End ScreenInvariants.

(** ** What [next] hands over and what is persisted *)

Section AcceptedIds.

Lemma In_map_from_get {B : Type} (f : OutfitSuggestion -> Z -> B)
      (arr : list OutfitSuggestion) (y : B) :
  forall i, In y (Js.map_from f i arr) ->
            exists x k, Js.get arr (k - i) = Some x /\ y = f x k.
Proof.
  induction arr as [| a arr IH]; intros i; simpl; [tauto |].
  intros [Hy | Hy].
  - exists a, i. split; [now rewrite Z.sub_diag | congruence].
  - destruct (IH _ Hy) as (x & k & Hx & E).
    pose proof (get_Some_range _ _ _ Hx) as Hk.
    exists x, k. split; [| exact E].
    rewrite get_shift by lia. now replace (k - i - 1) with (k - (i + 1)) by lia.
Qed.

Lemma ids_injective (arr : list OutfitSuggestion) (i j : Z) (x y : OutfitSuggestion) :
  NoDup (map id arr) ->
  Js.get arr i = Some x -> Js.get arr j = Some y -> id x = id y -> i = j.
Proof.
  intros Hnodup Hx Hy E.
  pose proof (get_Some_range _ _ _ Hx) as Hi.
  pose proof (get_Some_range _ _ _ Hy) as Hj.
  unfold Js.get, Js.length in *.
  destruct (Z.ltb_spec i 0); [lia |]. destruct (Z.ltb_spec j 0); [lia |].
  rewrite NoDup_nth_error in Hnodup.
  assert (Hij : Z.to_nat i = Z.to_nat j).
  { apply Hnodup.
    - rewrite List.length_map. lia.
    - rewrite (map_nth_error id _ _ Hx), (map_nth_error id _ _ Hy). now rewrite E. }
  lia.
Qed.

Lemma fire_accepted (s : Home.Screen) :
  Home.accepted (Home.fire s) = Home.accepted s.
Proof. unfold Home.fire. now destruct (Home.timers s) as [| [] ?]. Qed.

Lemma step_flagged_are_persisted (s : Home.Screen) (e : Home.Event) :
  NoDup (map id (Home.outfits s)) ->
  Home.flagged_are_persisted s -> Home.flagged_are_persisted (Home.step e s).
Proof.
  unfold Home.flagged_are_persisted. intros Hnodup Hinv. destruct e; simpl.
  - destruct (swipe_cases s) as [[-> _] | (current & Hguard & Hcur)]; [exact Hinv |].
    rewrite (onLeft_commit s current Hguard Hcur). simpl.
    intros o' Hin. apply in_map_iff in Hin as (o & <- & Hin).
    unfold Home.reject_by_id. destruct (String.eqb (id o) (id current)); simpl.
    + discriminate.
    + now apply Hinv.
  - destruct (swipe_cases s) as [[_ ->] | (current & Hguard & Hcur)]; [exact Hinv |].
    rewrite (onRight_commit s current Hguard Hcur). simpl.
    intros o' Hin. apply in_map_iff in Hin as (o & <- & Hin).
    rewrite has_id_add. unfold Home.accept_by_id.
    destruct (String.eqb_spec (id o) (id current)) as [E | N]; simpl.
    + intros _. rewrite E, String.eqb_refl. reflexivity.
    + intros Hflag. rewrite (Hinv o Hin Hflag). apply orb_true_r.
  - destruct (undo_cases s) as [-> | (last & item & Hguard & Hlast & _ & Hitem)];
      [exact Hinv |].
    rewrite (undo_commit s last item Hguard Hlast Hitem). simpl.
    intros o' Hin. unfold Js.mapi in Hin.
    apply In_map_from_get in Hin as (o & k & Hk & ->). rewrite Z.sub_0_r in Hk.
    unfold Home.reset_at. destruct (Z.eqb_spec k (Home.index last)) as [E | N]; simpl.
    + discriminate.
    + intros Hflag. pose proof (Hinv o (get_In _ _ _ Hk) Hflag) as Hin.
      destruct (Home.Action_eqb (Home.action last) Home.right); [| exact Hin].
      rewrite has_id_remove, Hin, andb_true_r.
      destruct (String.eqb_spec (id item) (id o)) as [E | _]; [| reflexivity].
      exfalso. apply N. symmetry.
      exact (ids_injective _ _ _ _ _ Hnodup Hitem Hk E).
  - exact Hinv.
  - unfold Home.onItemPress. now destruct (negb (Home.isProcessing s)).
  - rewrite fire_outfits, fire_accepted. exact Hinv.
Qed.

(** X7. From a first render with unique outfit ids in which every outfit
    flagged as accepted has a record in the persisted collection (the mock
    data flags none), every id that [next] hands to the history screen is
    the id of a record of the persisted collection, in every reachable
    state. *)
Theorem next_ids_are_persisted (items acc : list OutfitSuggestion) (s : Home.Screen) :
  NoDup (map id items) ->
  (forall o, In o items -> truthy (isAccepted o) = true ->
             Store.has_id (id o) acc = true) ->
  Home.reachable (Home.initial items acc) s ->
  forall i, In i (Home.acceptedIds s) -> Store.has_id i (Home.accepted s) = true.
Proof.
  intros Hnodup Hinit Hreach.
  assert (Hinv : map id (Home.outfits s) = map id items /\ Home.flagged_are_persisted s).
  { revert s Hreach.
    apply (reachable_invariant
             (fun t => map id (Home.outfits t) = map id items /\ Home.flagged_are_persisted t)).
    - split; [reflexivity | exact Hinit].
    - intros t e [Hids Hflag] _. split.
      + rewrite <- Hids. apply field_through_sans_flags; [reflexivity |].
        apply step_sans_flags.
      + apply step_flagged_are_persisted; [now rewrite Hids | exact Hflag]. }
  destruct Hinv as [_ Hflag]. intros i Hi. unfold Home.acceptedIds in Hi.
  apply in_map_iff in Hi as (o & <- & Ho). apply filter_In in Ho as [Ho Hacc].
  now apply Hflag.
Qed.

End AcceptedIds.

(** ** Swiping through the deck and undoing *)

Section Sequences.

Lemma swipe_timeout_state (s : Home.Screen) (e : Home.Event) (current : OutfitSuggestion) :
  Home.idle s ->
  Home.is_swipe e = true ->
  Js.get (Home.outfits s) (Home.activeIndex s) = Some current ->
  let s' := Home.fire (Home.step e s) in
  Home.idle s'
  /\ Home.activeIndex s'
     = Z.min (Home.activeIndex s + 1) (Js.length (Home.outfits s) - 1)
  /\ Home.history s'
     = Home.history s ++
       [ {| Home.index := Home.activeIndex s; Home.action := Home.action_of e |} ]
  /\ Js.length (Home.outfits s') = Js.length (Home.outfits s)
  /\ Home.accepted s'
     = match e with
       | Home.SwipeRight => Store.addAccepted current (Home.accepted s)
       | _ => Home.accepted s
       end.
Proof.
  intros [Hguard Htimers] Hswipe Hcur. destruct e; try discriminate; simpl.
  - rewrite (onLeft_commit s current Hguard Hcur), Htimers.
    unfold Home.fire, Home.idle. simpl. rewrite js_length_map. auto.
  - rewrite (onRight_commit s current Hguard Hcur), Htimers.
    unfold Home.fire, Home.idle. simpl. rewrite js_length_map. auto.
Qed.

(** X8. On an idle screen whose active index holds an outfit, a swipe
    followed by the end of its transition leaves the screen idle again,
    with one more undo record, bearing the index that was active, and the
    active index one further, except on the last outfit, where it
    stays. *)
Theorem swipe_then_timeout_advances
        (s : Home.Screen) (e : Home.Event) (current : OutfitSuggestion) :
  Home.idle s ->
  Home.is_swipe e = true ->
  Js.get (Home.outfits s) (Home.activeIndex s) = Some current ->
  let s' := Home.run [e; Home.Timeout] s in
  let n := Js.length (Home.outfits s) in
  Home.idle s'
  /\ Home.history s'
     = Home.history s ++
       [ {| Home.index := Home.activeIndex s; Home.action := Home.action_of e |} ]
  /\ (Home.activeIndex s < n - 1 -> Home.activeIndex s' = Home.activeIndex s + 1)
  /\ (Home.activeIndex s = n - 1 -> Home.activeIndex s' = Home.activeIndex s).
Proof.
  intros Hidle Hswipe Hcur s' n.
  destruct (swipe_timeout_state s e current Hidle Hswipe Hcur) as (Hi & Ha & Hh & _).
  unfold Home.run in s'. simpl in s'. fold s' in Hi, Ha, Hh. fold n in Ha.
  repeat split; trivial; try apply Hi; intros; lia.
Qed.

Lemma run_with_timeouts_cons (e : Home.Event) (es : list Home.Event) (s : Home.Screen) :
  Home.run (Home.with_timeouts (e :: es)) s
  = Home.run (Home.with_timeouts es) (Home.fire (Home.step e s)).
Proof. reflexivity. Qed.

Lemma swipes_state (es : list Home.Event) :
  forall s : Home.Screen,
    Home.idle s ->
    Home.in_range (Js.length (Home.outfits s)) (Home.activeIndex s) ->
    forallb Home.is_swipe es = true ->
    let s' := Home.run (Home.with_timeouts es) s in
    let n := Js.length (Home.outfits s) in
    Home.idle s'
    /\ Home.activeIndex s' = Z.min (Home.activeIndex s + Z.of_nat (List.length es)) (n - 1)
    /\ Js.length (Home.outfits s') = n
    /\ exists hs,
        Home.history s' = Home.history s ++ hs
        /\ List.length hs = List.length es
        /\ Forall (fun h => Home.in_range n (Home.index h)) hs
        /\ (es <> [] -> exists h0 rest, hs = h0 :: rest /\ Home.index h0 = Home.activeIndex s).
Proof.
  induction es as [| e es IH]; intros s Hidle Hrange Hswipes.
  - cbv zeta. unfold Home.run. simpl. unfold Home.in_range in Hrange.
    repeat split; try apply Hidle; try lia.
    exists []. rewrite app_nil_r. repeat split; [constructor | congruence].
  - simpl in Hswipes. apply andb_prop in Hswipes as [He Hes].
    destruct (get_in_range _ _ Hrange) as (current & Hcur).
    destruct (swipe_timeout_state s e current Hidle He Hcur) as (Hi & Ha & Hh & Hl & _).
    cbv zeta. rewrite run_with_timeouts_cons.
    set (t := Home.fire (Home.step e s)) in *.
    assert (Hrange' : Home.in_range (Js.length (Home.outfits t)) (Home.activeIndex t)).
    { rewrite Hl, Ha. unfold Home.in_range in *. lia. }
    destruct (IH t Hi Hrange' Hes) as (Hi' & Ha' & Hl' & hs & Hh' & Hlen & Hall & _).
    rewrite Hl in *. unfold Home.in_range in Hrange.
    repeat split; try apply Hi'.
    + rewrite Ha', Ha. simpl List.length. lia.
    + exact Hl'.
    + exists ({| Home.index := Home.activeIndex s; Home.action := Home.action_of e |} :: hs).
      repeat split.
      * rewrite Hh', Hh, <- app_assoc. reflexivity.
      * simpl. now rewrite Hlen.
      * constructor; [exact Hrange | exact Hall].
      * intros _. eexists. eexists. split; reflexivity.
Qed.

(** X9. From an idle screen with the active index [a] within the [n]
    outfits, [k] swipes, each followed by the end of its transition, leave
    the screen idle with the active index at [min(a + k, n - 1)] and [k]
    more undo records: the deck never runs out, the last outfit stays the
    active one and takes every further swipe. *)
Theorem swiping_through_the_deck (es : list Home.Event) (s : Home.Screen) :
  Home.idle s ->
  0 <= Home.activeIndex s <= Js.length (Home.outfits s) - 1 ->
  forallb Home.is_swipe es = true ->
  let s' := Home.run (Home.with_timeouts es) s in
  Home.idle s'
  /\ Home.activeIndex s'
     = Z.min (Home.activeIndex s + Z.of_nat (List.length es))
             (Js.length (Home.outfits s) - 1)
  /\ List.length (Home.history s')
     = (List.length (Home.history s) + List.length es)%nat.
Proof.
  intros Hidle Hrange Hswipes.
  destruct (swipes_state es s Hidle Hrange Hswipes) as (Hi & Ha & _ & hs & Hh & Hlen & _).
  cbv zeta. repeat split; try apply Hi; trivial.
  now rewrite Hh, length_app, Hlen.
Qed.

Lemma get_map_from {B : Type} (f : OutfitSuggestion -> Z -> B)
      (arr : list OutfitSuggestion) :
  forall k j, Js.get (Js.map_from f k arr) j
              = option_map (fun o => f o (j + k)) (Js.get arr j).
Proof.
  induction arr as [| a arr IH]; intros k j.
  - unfold Js.get. simpl. destruct (j <? 0); [reflexivity |].
    now destruct (Z.to_nat j).
  - destruct (Z.ltb_spec j 0) as [Hneg | Hpos].
    + unfold Js.get. apply Z.ltb_lt in Hneg. now rewrite Hneg.
    + destruct (Z.eq_dec j 0) as [-> | Hj].
      * reflexivity.
      * simpl Js.map_from. rewrite !get_shift by lia. rewrite IH.
        destruct (Js.get arr (j - 1)); simpl; [| reflexivity].
        do 2 f_equal. lia.
Qed.

Lemma last_entry_split {A : Type} (arr : list A) (x : A) :
  Js.last_entry arr = Some x -> arr = Js.drop_last arr ++ [x].
Proof.
  intros H. destruct arr as [| a arr] using rev_ind; [discriminate |].
  rewrite last_entry_app in H. injection H as ->. now rewrite drop_last_app.
Qed.

(** X10. On a screen whose guard is clear, [undo] of a last record that
    points at an outfit makes that outfit the active one with both flags
    [false], leaves every other position of the array as it was, takes
    exactly that record off the history, and for a right record leaves no
    record with the outfit's id in the persisted collection (for a left
    record the collection is untouched). *)
Theorem undo_returns_to_the_card
        (s : Home.Screen) (last : Home.HistoryEntry) (item : OutfitSuggestion) :
  Home.isProcessing s = false ->
  Js.last_entry (Home.history s) = Some last ->
  Js.get (Home.outfits s) (Home.index last) = Some item ->
  let s' := Home.undo s in
  Home.activeIndex s' = Home.index last
  /\ Js.get (Home.outfits s') (Home.index last) = Some (with_flags item false false)
  /\ (forall j, j <> Home.index last ->
                Js.get (Home.outfits s') j = Js.get (Home.outfits s) j)
  /\ Home.history s = Home.history s' ++ [last]
  /\ (Home.action last = Home.right ->
      Store.has_id (id item) (Home.accepted s') = false)
  /\ (Home.action last = Home.left -> Home.accepted s' = Home.accepted s)
  /\ (exists cleared,
        Js.get (Home.outfits s') (Home.index last) = Some cleared
        /\ isAccepted cleared = Some false /\ isRejected cleared = Some false
        /\ id cleared = id item /\ imageUri cleared = imageUri item
         /\ title cleared = title item /\ subtitle cleared = subtitle item
         /\ handle cleared = handle item /\ reason cleared = reason item
         /\ bgGradient cleared = bgGradient item).
Proof.
  intros Hguard Hlast Hitem s'. subst s'.
  rewrite (undo_commit s last item Hguard Hlast Hitem). simpl.
  assert (Hat : Js.get (Js.mapi (Home.reset_at (Home.index last)) (Home.outfits s))
                       (Home.index last)
                = Some (with_flags item false false)).
  { unfold Js.mapi. rewrite get_map_from, Hitem. simpl.
    unfold Home.reset_at. now rewrite Z.add_0_r, Z.eqb_refl. }
  split; [reflexivity |]. split; [| split; [| split; [| split; [| split]]]];
    [ | | | | | exists (with_flags item false false); split; [exact Hat |];
              simpl; repeat split ].
  - unfold Js.mapi. rewrite get_map_from, Hitem. simpl.
    unfold Home.reset_at. now rewrite Z.add_0_r, Z.eqb_refl.
  - intros j Hj. unfold Js.mapi. rewrite get_map_from.
    destruct (Js.get (Home.outfits s) j) as [o |]; simpl; [| reflexivity].
    unfold Home.reset_at. rewrite Z.add_0_r.
    destruct (Z.eqb_spec j (Home.index last)); [contradiction | reflexivity].
  - now apply last_entry_split.
  - intros ->. simpl. apply removeAccepted_has_id.
  - now intros ->.
Qed.

Lemma undo_timeout_state (s : Home.Screen) (h : list Home.HistoryEntry)
      (last : Home.HistoryEntry) :
  Home.idle s ->
  Home.history s = h ++ [last] ->
  Home.in_range (Js.length (Home.outfits s)) (Home.index last) ->
  let s' := Home.fire (Home.undo s) in
  Home.idle s'
  /\ Home.history s' = h
  /\ Home.activeIndex s' = Home.index last
  /\ Js.length (Home.outfits s') = Js.length (Home.outfits s).
Proof.
  intros [Hguard Htimers] Hhist Hrange.
  destruct (get_in_range _ _ Hrange) as (item & Hitem).
  assert (Hlast : Js.last_entry (Home.history s) = Some last)
    by (rewrite Hhist; apply last_entry_app).
  cbv zeta. rewrite (undo_commit s last item Hguard Hlast Hitem), Htimers, Hhist.
  unfold Home.fire, Home.idle. simpl.
  rewrite drop_last_app, js_length_mapi. auto.
Qed.

Lemma undos_state (hs : list Home.HistoryEntry) :
  forall (s : Home.Screen) (h : list Home.HistoryEntry),
    Home.idle s ->
    Home.history s = h ++ hs ->
    Forall (fun e => Home.in_range (Js.length (Home.outfits s)) (Home.index e)) hs ->
    let s' := Home.run (Home.with_timeouts (repeat Home.Undo (List.length hs))) s in
    Home.idle s'
    /\ Home.history s' = h
    /\ Js.length (Home.outfits s') = Js.length (Home.outfits s)
    /\ Home.activeIndex s'
       = match hs with
         | [] => Home.activeIndex s
         | h0 :: _ => Home.index h0
         end.
Proof.
  induction hs as [| last hs IH] using rev_ind; intros s h Hidle Hhist Hall.
  - cbv zeta. unfold Home.run. simpl. rewrite app_nil_r in Hhist. auto.
  - apply Forall_app in Hall as [Hall Hlast]. inversion Hlast as [| ? ? Hrange _]; subst.
    rewrite app_assoc in Hhist.
    destruct (undo_timeout_state s (h ++ hs) last Hidle Hhist Hrange)
      as (Hi & Hh & Ha & Hl).
    cbv zeta. rewrite length_app. simpl List.length. rewrite Nat.add_1_r.
    simpl repeat. rewrite run_with_timeouts_cons. simpl Home.step.
    set (t := Home.fire (Home.undo s)) in *.
    rewrite <- Hl in Hall.
    destruct (IH t h Hi Hh Hall) as (Hi' & Hh' & Hl' & Ha').
    repeat split; try apply Hi'; trivial.
    + now rewrite Hl'.
    + rewrite Ha', Ha. now destruct hs.
Qed.

(** X11. From an idle screen with the active index within the array, any
    non-empty run of swipes followed by as many undos (each event followed
    by the end of its transition) brings back the history stack and the
    active index the run started from, on an idle screen. *)
Theorem undo_all_the_way (es : list Home.Event) (s : Home.Screen) :
  Home.idle s ->
  0 <= Home.activeIndex s <= Js.length (Home.outfits s) - 1 ->
  forallb Home.is_swipe es = true ->
  es <> [] ->
  let s' := Home.run (Home.with_timeouts es ++
                      Home.with_timeouts (repeat Home.Undo (List.length es))) s in
  Home.idle s'
  /\ Home.history s' = Home.history s
  /\ Home.activeIndex s' = Home.activeIndex s.
Proof.
  intros Hidle Hrange Hswipes Hne.
  destruct (swipes_state es s Hidle Hrange Hswipes)
    as (Hi & _ & Hl & hs & Hh & Hlen & Hall & Hfirst).
  destruct (Hfirst Hne) as (h0 & rest & Ehs & Hidx).
  cbv zeta. unfold Home.run. rewrite fold_left_app.
  fold (Home.run (Home.with_timeouts es) s).
  set (t := Home.run (Home.with_timeouts es) s) in *.
  rewrite <- Hlen.
  fold (Home.run (Home.with_timeouts (repeat Home.Undo (List.length hs))) t).
  rewrite <- Hl in Hall.
  destruct (undos_state hs t (Home.history s) Hi Hh Hall) as (Hi' & Hh' & _ & Ha').
  repeat split; try apply Hi'; trivial.
  rewrite Ha', Ehs. exact Hidx.
Qed.

End Sequences.

(** ** What is on screen *)

Section OnScreen.

Lemma reachable_bounded (items acc : list OutfitSuggestion) (s : Home.Screen) :
  items <> [] ->
  Home.reachable (Home.initial items acc) s ->
  Js.length (Home.outfits s) = Js.length items /\ Home.bounded s.
Proof.
  intros Hne.
  assert (Hn : 1 <= Js.length items).
  { unfold Js.length. destruct items; [congruence | simpl; lia]. }
  apply (reachable_invariant
           (fun t => Js.length (Home.outfits t) = Js.length items /\ Home.bounded t)).
  - split; [reflexivity |]. split; simpl; [unfold Home.in_range; lia | constructor].
  - intros t e [Hlen Hb] Hposs. split.
    + now rewrite step_length.
    + apply step_bounded; auto. now rewrite Hlen.
Qed.

Lemma reachable_active (items acc : list OutfitSuggestion) (s : Home.Screen) :
  items <> [] ->
  Home.reachable (Home.initial items acc) s ->
  exists active, Js.get (Home.outfits s) (Home.activeIndex s) = Some active.
Proof.
  intros Hne Hreach. destruct (reachable_bounded items acc s Hne Hreach) as (_ & Hidx & _).
  now apply get_in_range.
Qed.

Lemma slice_map {A B : Type} (g : A -> B) (arr : list A) (a b : Z) :
  map g (Js.slice arr a b) = Js.slice (map g arr) a b.
Proof.
  unfold Js.slice. rewrite js_length_map. now rewrite skipn_map, firstn_map.
Qed.

Lemma skipn_get {A : Type} (arr : list A) (a : Z) (x : A) :
  Js.get arr a = Some x ->
  exists before after,
    arr = before ++ x :: after /\ Z.of_nat (List.length before) = a.
Proof.
  intros H. pose proof (get_Some_range _ _ _ H) as Hr.
  unfold Js.get in H. destruct (Z.ltb_spec a 0); [lia |].
  apply nth_error_split in H as (before & after & -> & Hlen).
  exists before, after. split; [reflexivity | lia].
Qed.

Lemma get_after {A : Type} (before after : list A) (x : A) (j : Z) :
  0 <= j ->
  Js.get (before ++ x :: after) (Z.of_nat (List.length before) + 1 + j) = Js.get after j.
Proof.
  intros Hj. unfold Js.get.
  destruct (Z.ltb_spec (Z.of_nat (List.length before) + 1 + j) 0); [lia |].
  destruct (Z.ltb_spec j 0); [lia |].
  replace (Z.to_nat (Z.of_nat (List.length before) + 1 + j))
    with (List.length before + S (Z.to_nat j))%nat by lia.
  rewrite nth_error_app2 by lia.
  now replace (List.length before + S (Z.to_nat j) - List.length before)%nat
    with (S (Z.to_nat j)) by lia.
Qed.

(** [slice(a, a + 2)] at an index that holds an element. *)
Lemma slice_two {A : Type} (arr : list A) (a : Z) (x : A) :
  Js.get arr a = Some x ->
  Js.slice arr a (a + 2)
  = x :: match Js.get arr (a + 1) with Some y => [y] | None => [] end.
Proof.
  intros H. destruct (skipn_get arr a x H) as (before & after & -> & Hlen).
  replace (a + 1) with (Z.of_nat (List.length before) + 1 + 0) by lia.
  rewrite get_after by lia.
  unfold Js.slice, Js.clamp_index, Js.length. rewrite length_app. simpl List.length.
  destruct (Z.ltb_spec a 0); [lia |]. destruct (Z.ltb_spec (a + 2) 0); [lia |].
  replace (Z.to_nat (Z.min a (Z.of_nat (List.length before + S (List.length after)))))
    with (List.length before + 0)%nat by lia.
  rewrite skipn_app, skipn_all2 by lia.
  replace (List.length before + 0 - List.length before)%nat with 0%nat by lia.
  simpl skipn. simpl app.
  destruct after as [| y after]; simpl List.length.
  - replace (Z.to_nat _) with 1%nat by lia. reflexivity.
  - replace (Z.to_nat _) with 2%nat by lia. reflexivity.
Qed.

Lemma slice_prefix {A : Type} (arr : list A) (k : Z) :
  0 <= k -> Js.slice arr 0 k = firstn (Z.to_nat k) arr.
Proof.
  intros Hk. unfold Js.slice, Js.clamp_index, Js.length.
  destruct (Z.ltb_spec k 0); [lia |]. simpl.
  replace (Z.to_nat (Z.min 0 (Z.of_nat (List.length arr)))) with 0%nat by lia.
  simpl skipn.
  destruct (Z.le_ge_cases k (Z.of_nat (List.length arr))) as [Hle | Hge].
  - f_equal. lia.
  - rewrite !firstn_all2 by lia. reflexivity.
Qed.

(** X12. The card stack of a screen reached from a first render of a
    non-empty array: one or two cards, the first showing the active outfit
    and alone active, on top with the offsets (-8, 0), the second, when
    there is a next outfit, showing it with the offsets (0, 8); with unique
    outfit ids the cards have distinct keys. *)
Theorem card_stack (items acc : list OutfitSuggestion) (s : Home.Screen) :
  items <> [] ->
  Home.reachable (Home.initial items acc) s ->
  exists active,
    Js.get (Home.outfits s) (Home.activeIndex s) = Some active
    /\ Render.cards s
       = {| Card.outfit := active; Card.isActive := true;
            Card.onSwipeLeft := Home.onLeft; Card.onSwipeRight := Home.onRight;
            Card.style := {| Card.zIndex := 20; Card.styleTranslateX := -8;
                             Card.styleTranslateY := 0 |} |}
         :: match Js.get (Home.outfits s) (Home.activeIndex s + 1) with
            | Some following =>
                [ {| Card.outfit := following; Card.isActive := false;
                     Card.onSwipeLeft := Home.onLeft; Card.onSwipeRight := Home.onRight;
                     Card.style := {| Card.zIndex := 19; Card.styleTranslateX := 0;
                                      Card.styleTranslateY := 8 |} |} ]
            | None => []
            end
    /\ (NoDup (map id items) ->
        NoDup (map (fun p => id (Card.outfit p)) (Render.cards s))).
Proof.
  intros Hne Hreach.
  destruct (reachable_active items acc s Hne Hreach) as (active & Hact).
  exists active. split; [exact Hact |].
  assert (Hcards : Render.cards s
                   = Render.card active 0
                     :: match Js.get (Home.outfits s) (Home.activeIndex s + 1) with
                        | Some following => [Render.card following 1]
                        | None => []
                        end).
  { unfold Render.cards, Home.visibleCards. rewrite (slice_two _ _ _ Hact).
    now destruct (Js.get (Home.outfits s) (Home.activeIndex s + 1)). }
  split.
  - rewrite Hcards. now destruct (Js.get (Home.outfits s) (Home.activeIndex s + 1)).
  - intros Hnodup. rewrite Hcards.
    assert (Hids : NoDup (map id (Home.outfits s))).
    { replace (map id (Home.outfits s)) with (map id items); [exact Hnodup |].
      symmetry. apply field_through_sans_flags; [reflexivity |].
      now apply (reachable_sans_flags items acc). }
    destruct (Js.get (Home.outfits s) (Home.activeIndex s + 1)) as [following |] eqn:Hnext;
      simpl.
    + constructor; [| constructor; [tauto | constructor]].
      intros [E | []].
      pose proof (ids_injective _ _ _ _ _ Hids Hnext Hact E). lia.
    + constructor; [tauto | constructor].
Qed.

Lemma cards_memo_equal (m : list OutfitSuggestion) :
  forall (m' : list OutfitSuggestion) (k : Z),
    map Home.sans_flags m = map Home.sans_flags m' ->
    Forall2 (fun p q => Card.propsAreEqual p q = true)
            (Js.map_from Render.card k m) (Js.map_from Render.card k m').
Proof.
  induction m as [| o m IH]; intros [| o' m'] k H; simpl in *; try discriminate.
  - constructor.
  - assert (Ho : Home.sans_flags o = Home.sans_flags o') by congruence.
    assert (Hm : map Home.sans_flags m = map Home.sans_flags m') by congruence.
    constructor; [| now apply IH].
    unfold Card.propsAreEqual. simpl.
    replace (id o') with (id o) by exact (f_equal id Ho).
    replace (imageUri o') with (imageUri o) by exact (f_equal imageUri Ho).
    rewrite !String.eqb_refl. now destruct (k =? 0).
Qed.

(** X13. An event that leaves the active index where it was leaves every
    card of the stack equal, for the comparison given to [memo], to the
    card that was there: flagging an outfit never re-renders its card. *)
Theorem flagging_never_rerenders_a_card (s : Home.Screen) (e : Home.Event) :
  Home.activeIndex (Home.step e s) = Home.activeIndex s ->
  Forall2 (fun p q => Card.propsAreEqual p q = true)
          (Render.cards s) (Render.cards (Home.step e s)).
Proof.
  intros Hsame. unfold Render.cards, Home.visibleCards, Js.mapi. rewrite Hsame.
  apply cards_memo_equal. rewrite !slice_map. now rewrite step_sans_flags.
Qed.

(** X14. In every state reached from a first render of a non-empty array
    the background is the gradient of the outfit the first render had at
    the active index, never the theme's fallback; and the urls handed to
    the prefetch are, in every reachable state, the first five image urls
    of the first render. *)
Theorem background_and_prefetch
        (items acc : list OutfitSuggestion) (s : Home.Screen)
        (backgroundGradient : string * string * string) :
  items <> [] ->
  Home.reachable (Home.initial items acc) s ->
  (exists o, Js.get items (Home.activeIndex s) = Some o
             /\ Home.bg backgroundGradient s = bgGradient o)
  /\ Home.prefetched s = firstn 5 (map imageUri items).
Proof.
  intros Hne Hreach.
  pose proof (reachable_sans_flags items acc s Hreach) as Hflags.
  split.
  - destruct (reachable_active items acc s Hne Hreach) as (active & Hact).
    assert (Hg : map bgGradient (Home.outfits s) = map bgGradient items)
      by (apply field_through_sans_flags; trivial).
    assert (Hget : Js.get (map bgGradient items) (Home.activeIndex s)
                   = Some (bgGradient active)).
    { rewrite <- Hg, get_map, Hact. reflexivity. }
    rewrite get_map in Hget.
    destruct (Js.get items (Home.activeIndex s)) as [o |]; [| discriminate].
    exists o. split; [reflexivity |].
    unfold Home.bg. rewrite Hact. simpl in Hget. congruence.
  - unfold Home.prefetched. rewrite slice_prefix by lia.
    rewrite <- firstn_map. f_equal.
    apply field_through_sans_flags; trivial.
Qed.

Lemma empty_window (a : Z) : Arc.visible 0 a = [].
Proof.
  rewrite visible_interval. apply interval_empty.
  unfold Arc.window_start, Arc.window_end, Arc.visibleRange. lia.
Qed.

(** X15. A screen whose first render has no outfit is inert: in every
    reachable state the array and the history are empty, the guard is
    clear with no timeout pending, the persisted collection is the one the
    render started with, the active index is 0 or, once [goNext] has run,
    -1, and neither a card nor a thumbnail is drawn, the background being
    the theme's. *)
Theorem empty_deck_is_inert (acc : list OutfitSuggestion) (s : Home.Screen)
        (backgroundGradient : string * string * string) :
  Home.reachable (Home.initial [] acc) s ->
  Home.outfits s = [] /\ Home.history s = []
  /\ Home.idle s /\ Home.accepted s = acc
  /\ (Home.activeIndex s = 0 \/ Home.activeIndex s = -1)
  /\ Render.cards s = [] /\ Render.carousel s = []
  /\ Render.undo_shown s = false
  /\ Home.bg backgroundGradient s = backgroundGradient.
Proof.
  intros Hreach.
  assert (Hinv : Home.outfits s = [] /\ Home.history s = [] /\ Home.idle s
                 /\ Home.accepted s = acc
                 /\ (Home.activeIndex s = 0 \/ Home.activeIndex s = -1)).
  { revert s Hreach.
    apply (reachable_invariant
             (fun t => Home.outfits t = [] /\ Home.history t = [] /\ Home.idle t
                       /\ Home.accepted t = acc
                       /\ (Home.activeIndex t = 0 \/ Home.activeIndex t = -1))).
    - repeat split; auto.
    - intros t e (Ho & Hh & [Hg Ht] & Ha & Hi) Hposs.
      assert (Hnone : Js.get (Home.outfits t) (Home.activeIndex t) = None).
      { rewrite Ho. unfold Js.get. destruct (Home.activeIndex t <? 0); [reflexivity |].
        now destruct (Z.to_nat (Home.activeIndex t)). }
      destruct e; simpl in *.
      + rewrite (onLeft_out_of_range t Hg Hnone). repeat split; auto.
      + rewrite (onRight_out_of_range t Hg Hnone). repeat split; auto.
      + rewrite (undo_empty_history t Hh). repeat split; auto.
      + unfold Home.goNext, Home.idle. simpl. rewrite Ho.
        repeat split; auto. right. unfold Js.length. simpl. lia.
      + rewrite Ho in Hposs. unfold Js.length in Hposs. simpl in Hposs. lia.
      + unfold Home.fire. rewrite Ht. repeat split; auto. }
  destruct Hinv as (Ho & Hh & Hidle & Ha & Hi).
  repeat split; try apply Hidle; trivial.
  - unfold Render.cards, Home.visibleCards. rewrite Ho.
    unfold Js.slice. now rewrite skipn_nil, firstn_nil.
  - unfold Render.carousel, Arc.render. rewrite Ho.
    change (Js.length []) with 0. now rewrite empty_window.
  - unfold Render.undo_shown. now rewrite Hh.
  - unfold Home.bg. rewrite Ho. unfold Js.get.
    destruct (Home.activeIndex s <? 0); [reflexivity |].
    now destruct (Z.to_nat (Home.activeIndex s)).
Qed.

End OnScreen.

(** ** The labels of a card while it is dragged *)

Section Dragging.

Local Open Scope float_scope.

Variable SCREEN_WIDTH : float.
Hypothesis width_pos : (0 <? SCREEN_WIDTH) = true.


Lemma label_threshold_sign_clear :
  Num.sign_clear (Prim2SF (Card.SWIPE_THRESHOLD SCREEN_WIDTH * 0.75)) = true.
Proof.
  unfold Card.SWIPE_THRESHOLD. rewrite !mul_spec.
  apply SFmul_sign_clear; [| reflexivity].
  apply SFmul_sign_clear; [| reflexivity].
  now apply positive_sign_clear.
Qed.

Lemma like_quotient_not_negative (dx : float) :
  (0 <? dx) = true ->
  (dx / (Card.SWIPE_THRESHOLD SCREEN_WIDTH * 0.75) <? 0) = false.
Proof.
  intros H. apply sign_clear_not_negative. rewrite div_spec.
  apply SFdiv_sign_clear; [now apply positive_sign_clear | apply label_threshold_sign_clear].
Qed.

Lemma nope_quotient_not_negative (dx : float) :
  (dx <? 0) = true ->
  (- dx / (Card.SWIPE_THRESHOLD SCREEN_WIDTH * 0.75) <? 0) = false.
Proof.
  intros H. apply sign_clear_not_negative. rewrite div_spec.
  apply SFdiv_sign_clear;
    [now apply negative_opp_sign_clear | apply label_threshold_sign_clear].
Qed.

Lemma move_effects (dx dy : float) :
  Card.onPanResponderMove true SCREEN_WIDTH dx dy
  = [ Card.setValue Card.translateX dx; Card.setValue Card.translateY (dy * 0.22) ] ++
    (if 0 <? dx then
       [ Card.setValue Card.likeOpacity
           (Num.Math_min 1 (dx / (Card.SWIPE_THRESHOLD SCREEN_WIDTH * 0.75)));
         Card.setValue Card.nopeOpacity 0 ]
     else if dx <? 0 then
       [ Card.setValue Card.nopeOpacity
           (Num.Math_min 1 (- dx / (Card.SWIPE_THRESHOLD SCREEN_WIDTH * 0.75)));
         Card.setValue Card.likeOpacity 0 ]
     else
       [ Card.setValue Card.likeOpacity 0; Card.setValue Card.nopeOpacity 0 ]).
Proof. reflexivity. Qed.

(** X16. While an active card is dragged on a screen of positive width,
    each move sets the horizontal translation to [dx] and the vertical one
    to [dy * 0.22]; it sets the label on the side of the drag to
    [Math.min(1, |dx| / (SWIPE_THRESHOLD * 0.75))] and the other label to
    0 (both to 0 when [dx] is neither above nor below 0), so that, compared
    as doubles, no label opacity is ever below 0 or above 1 and at most
    one is not 0. A move calls neither handler, and a card whose responder
    was created inactive ignores moves. *)
Theorem dragging_sets_the_labels (dx dy like0 nope0 x0 y0 : float) :
  let threshold := Card.SWIPE_THRESHOLD SCREEN_WIDTH * 0.75 in
  let effects := Card.onPanResponderMove true SCREEN_WIDTH dx dy in
  let like := Card.value_after Card.likeOpacity effects like0 in
  let nope := Card.value_after Card.nopeOpacity effects nope0 in
  Card.value_after Card.translateX effects x0 = dx
  /\ Card.value_after Card.translateY effects y0 = dy * 0.22
  /\ ((0 <? dx) = true ->
      like = Num.Math_min 1 (dx / threshold) /\ nope = 0)
  /\ ((0 <? dx) = false -> (dx <? 0) = true ->
      nope = Num.Math_min 1 (- dx / threshold) /\ like = 0)
  /\ ((0 <? dx) = false -> (dx <? 0) = false -> like = 0 /\ nope = 0)
  /\ ((like <? 0) = false /\ (1 <? like) = false)
  /\ ((nope <? 0) = false /\ (1 <? nope) = false)
  /\ (like = 0 \/ nope = 0)
  /\ ~ In Card.handleSwipeLeft effects /\ ~ In Card.handleSwipeRight effects
  /\ Card.onPanResponderMove false SCREEN_WIDTH dx dy = [].
Proof.
  intros threshold effects like nope. subst effects like nope threshold.
  rewrite move_effects.
  destruct (0 <? dx) eqn:Hpos; [| destruct (dx <? 0) eqn:Hneg]; simpl.
  - pose proof (Math_min_one_range _ (like_quotient_not_negative dx Hpos)) as Hrange.
    repeat split; try discriminate; try reflexivity; try apply Hrange;
      try (now right); intuition discriminate.
  - pose proof (Math_min_one_range _ (nope_quotient_not_negative dx Hneg)) as Hrange.
    repeat split; try discriminate; try reflexivity; try apply Hrange;
      try (now left); intuition discriminate.
  - repeat split; try discriminate; try reflexivity; try (now left);
      intuition discriminate.
Qed.






End Dragging.

(** ** More on the carousel *)

Section CarouselFacts.

Lemma get_interval (lo hi j x : Z) :
  Js.get (Arc.interval lo hi) j = Some x -> x = lo + j.
Proof.
  intros H. pose proof (get_Some_range _ _ _ H) as Hr.
  unfold Js.get in H. destruct (Z.ltb_spec j 0); [lia |].
  unfold Arc.interval in H. rewrite nth_error_map in H.
  destruct (nth_error (seq 0 (Z.to_nat (hi + 1 - lo))) (Z.to_nat j)) as [k |] eqn:E;
    [| discriminate].
  injection H as <-.
  assert (Hlt : (Z.to_nat j < List.length (seq 0 (Z.to_nat (hi + 1 - lo))))%nat).
  { apply nth_error_Some. congruence. }
  rewrite length_seq in Hlt.
  apply (nth_error_nth _ _ 0%nat) in E. rewrite seq_nth in E by exact Hlt. lia.
Qed.

Lemma interval_NoDup (lo hi : Z) : NoDup (Arc.interval lo hi).
Proof.
  unfold Arc.interval. apply NoDup_map_NoDup_ForallPairs; [| apply seq_NoDup].
  intros x y _ _ H. lia.
Qed.

Lemma In_render {A : Type} (items : list A) (a : Z) (t : Arc.Thumb A) :
  In t (Arc.render items a) ->
  exists i, t = Arc.thumb items a i (i - Arc.window_start a)
            /\ In i (Arc.visible (Js.length items) a).
Proof.
  unfold Arc.render, Js.mapi. rewrite visible_interval.
  generalize (Arc.window_end (Js.length items) a). intros hi.
  assert (Hgen : forall l k,
             (forall j x, Js.get l j = Some x -> x = Arc.window_start a + k + j) ->
             In t (Js.map_from (Arc.thumb items a) k l) ->
             exists i, t = Arc.thumb items a i (i - Arc.window_start a) /\ In i l).
  { induction l as [| i l IH]; intros k Hl; simpl; [tauto |].
    intros [<- | Hin].
    - exists i. split; [| now left].
      f_equal. specialize (Hl 0 i eq_refl). lia.
    - destruct (IH (k + 1)) as (i' & E & Hi'); [| exact Hin |].
      + intros j x Hj. pose proof (get_Some_range _ _ _ Hj).
        specialize (Hl (j + 1) x). rewrite get_shift in Hl by lia.
        replace (j + 1 - 1) with j in Hl by lia. specialize (Hl Hj). lia.
      + exists i'. split; [exact E | now right]. }
  apply Hgen. intros j x Hj. apply get_interval in Hj. lia.
Qed.

(** X18. Whatever the active index, every thumbnail the carousel of a
    screen draws stands for an existing outfit, the one at its index: the
    carousel never reads past the array, a press on a thumbnail is a press
    on an index in range, and on a screen whose guard is clear it makes
    that outfit the active one. *)
Theorem carousel_offers_existing_items
        (s : Home.Screen) (t : Arc.Thumb OutfitSuggestion) :
  In t (Render.carousel s) ->
  (exists o, Arc.item t = Some o
             /\ Js.get (Home.outfits s) (Arc.realIndex t) = Some o)
  /\ Home.possible (Home.ItemPress (Arc.realIndex t)) s
  /\ (Home.isProcessing s = false ->
      Home.activeIndex (Home.step (Home.ItemPress (Arc.realIndex t)) s)
      = Arc.realIndex t).
Proof.
  intros Hin. apply In_render in Hin as (i & -> & Hi). simpl.
  apply visible_in_range in Hi.
  destruct (get_in_range _ _ Hi) as (o & Ho).
  split; [exists o; now split |]. split; [exact Hi |].
  intros Hguard. unfold Home.onItemPress. now rewrite Hguard.
Qed.

(** X19. The shape of the window. A thumbnail sits in the slot that is its
    index minus the first index of the window. For an active index [a]
    within the [n] items the window has [min(a, 4)] thumbnails before the
    active one and [min(n - 1 - a, 4)] after it, so the active thumbnail is
    in slot [min(a, 4)]: it is the middle one of nine exactly when
    [4 <= a <= n - 5], and an array of at most five items is shown
    whole. *)
Theorem window_shape {A : Type} (items : list A) (a : Z) :
  let n := Js.length items in
  (forall t, In t (Arc.render items a) ->
             Arc.slot t = Arc.realIndex t - Z.max 0 (a - 4))
  /\ (0 <= a <= n - 1 ->
      Z.of_nat (List.length (Arc.render items a)) = Z.min a 4 + 1 + Z.min (n - 1 - a) 4
      /\ (forall t, In t (Arc.render items a) -> Arc.isActive t = true ->
                    Arc.slot t = Z.min a 4)
      /\ (List.length (Arc.render items a) = 9%nat <-> 4 <= a <= n - 5)
      /\ (n <= 5 -> Arc.visible n a = Arc.interval 0 (n - 1))).
Proof.
  intros n.
  assert (Hlen : Z.of_nat (List.length (Arc.render items a))
                 = Z.max 0 (Z.min (n - 1) (a + 4) + 1 - Z.max 0 (a - 4))).
  { unfold Arc.render, Js.mapi. rewrite length_map_from, visible_interval, length_interval.
    unfold Arc.window_start, Arc.window_end, Arc.visibleRange. fold n. lia. }
  split.
  - intros t Hin. apply In_render in Hin as (i & -> & _). reflexivity.
  - intros Ha. split; [lia |]. split; [| split].
    + intros t Hin Hact. apply In_render in Hin as (i & -> & _). simpl in *.
      apply Z.eqb_eq in Hact. subst i.
      unfold Arc.window_start, Arc.visibleRange. lia.
    + split; intros H; lia.
    + intros Hsmall. rewrite visible_interval.
      unfold Arc.window_start, Arc.window_end, Arc.visibleRange. fold n.
      f_equal; lia.
Qed.

Lemma map_key_render (items : list OutfitSuggestion) (a : Z) (l : list Z) :
  forall k, map Arc.key_of (Js.map_from (Arc.thumb items a) k l)
            = map (fun i => option_map id (Js.get items i)) l.
Proof. induction l as [| i l IH]; intros k; simpl; [reflexivity |]. now rewrite IH. Qed.

(** X20. With unique outfit ids the thumbnails the carousel draws have
    distinct keys, whatever the active index. *)
Theorem carousel_keys_distinct (items : list OutfitSuggestion) (a : Z) :
  NoDup (map id items) ->
  NoDup (map Arc.key_of (Arc.render items a)).
Proof.
  intros Hnodup. unfold Arc.render, Js.mapi. rewrite map_key_render.
  apply NoDup_map_NoDup_ForallPairs.
  - intros i j Hi Hj E.
    apply visible_in_range in Hi. apply visible_in_range in Hj.
    destruct (get_in_range _ _ Hi) as (x & Hx). destruct (get_in_range _ _ Hj) as (y & Hy).
    rewrite Hx, Hy in E. simpl in E. injection E as E.
    exact (ids_injective _ _ _ _ _ Hnodup Hx Hy E).
  - rewrite visible_interval. apply interval_NoDup.
Qed.

Lemma reachable_exclusive (items acc : list OutfitSuggestion) (s : Home.Screen) :
  Forall Home.exclusive items ->
  Home.reachable (Home.initial items acc) s ->
  Forall Home.exclusive (Home.outfits s).
Proof.
  intros Hitems.
  apply (reachable_invariant (fun t => Forall Home.exclusive (Home.outfits t)));
    [exact Hitems |].
  intros t e Ht _. now apply step_exclusive.
Qed.

(** X21. On a screen reached from a first render in which no outfit has
    both flags true, no thumbnail of the carousel shows the check badge and
    the cross badge together, and a thumbnail that shows the check badge
    stands for an outfit whose id [next] hands over. *)
Theorem carousel_badges (items acc : list OutfitSuggestion) (s : Home.Screen)
        (t : Arc.Thumb OutfitSuggestion) :
  Forall Home.exclusive items ->
  Home.reachable (Home.initial items acc) s ->
  In t (Render.carousel s) ->
  ~ (Arc.badge_accepted t = true /\ Arc.badge_rejected t = true)
  /\ (Arc.badge_accepted t = true ->
      exists o, Js.get (Home.outfits s) (Arc.realIndex t) = Some o
                /\ In (id o) (Home.acceptedIds s)).
Proof.
  intros Hitems Hreach Hin.
  pose proof (reachable_exclusive items acc s Hitems Hreach) as Hex.
  apply In_render in Hin as (i & -> & Hi).
  unfold Arc.badge_accepted, Arc.badge_rejected. simpl.
  apply visible_in_range in Hi. destruct (get_in_range _ _ Hi) as (o & Ho).
  rewrite Ho. split.
  - intros [Ha Hr]. rewrite Forall_forall in Hex.
    apply (Hex o (get_In _ _ _ Ho)). unfold truthy in *.
    destruct (isAccepted o) as [[|] |], (isRejected o) as [[|] |];
      try discriminate; now split.
  - intros Ha. exists o. split; [reflexivity |].
    unfold Home.acceptedIds. apply in_map. apply filter_In.
    split; [exact (get_In _ _ _ Ho) | exact Ha].
Qed.

End CarouselFacts.

(** ** The further properties on the mock data *)

Section FurtherOnMockData.

Lemma mock_unflagged (o : OutfitSuggestion) :
  In o Home.mockOutfits -> truthy (isAccepted o) = true ->
  Store.has_id (id o) Store.accepted_init = true.
Proof.
  intros Hin. unfold Home.mockOutfits in Hin. simpl in Hin.
  repeat (destruct Hin as [<- | Hin]; [discriminate |]). contradiction.
Qed.

Lemma mock_nonempty : Home.mockOutfits <> [].
Proof. discriminate. Qed.

Lemma removeAccepted_removes_exactly_witness :
  Store.has_id "9" Home.mockOutfits = false /\
  Store.removeAccepted "9" Home.mockOutfits = Home.mockOutfits /\
  map id (Store.removeAccepted "2" (firstn 3 Home.mockOutfits)) = [ "1"; "3" ]%string.
Proof.
  split; [reflexivity |].
  destruct (removeAccepted_removes_exactly "9" Home.mockOutfits) as (_ & _ & _ & H & _).
  split; [exact (H eq_refl) |].
  destruct (removeAccepted_removes_exactly "2" (firstn 3 Home.mockOutfits))
    as (_ & _ & _ & _ & H2).
  rewrite (H2 (firstn 1 Home.mockOutfits) (nth 1 Home.mockOutfits (Home.suggestion "" "" "" "" "" "" ("", "", ""))%string)
              (firstn 1 (skipn 2 Home.mockOutfits)) eq_refl).
  reflexivity.
Defined.

Lemma add_then_remove_witness :
  Store.has_id "9" Home.mockOutfits = false /\
  Store.removeAccepted "9"
    (Store.addAccepted (Home.suggestion "9" "" "" "" "" "" ("", "", ""))%string
                       Home.mockOutfits)
  = Home.mockOutfits.
Proof.
  split; [reflexivity |].
  destruct (add_then_remove (Home.suggestion "9" "" "" "" "" "" ("", "", ""))%string
                            Home.mockOutfits) as (_ & H & _).
  exact (H eq_refl).
Defined.

Lemma add_remove_commute_witness :
  "9"%string <> "1"%string /\
  Store.addAccepted (Home.suggestion "9" "" "" "" "" "" ("", "", ""))%string
                    (Store.removeAccepted "1" Home.mockOutfits)
  = Store.removeAccepted "1"
      (Store.addAccepted (Home.suggestion "9" "" "" "" "" "" ("", "", ""))%string
                         Home.mockOutfits).
Proof.
  assert (Hne : "9"%string <> "1"%string) by discriminate.
  split; [exact Hne |].
  exact (add_remove_commute (Home.suggestion "9" "" "" "" "" "" ("", "", ""))%string
                            "1" Home.mockOutfits Hne).
Defined.

Lemma one_call_in_flight_witness :
  Home.isProcessing (Home.step Home.SwipeRight Home.first_render) = true /\
  Home.idle (Home.fire (Home.step Home.SwipeRight Home.first_render)).
Proof.
  split; [reflexivity |].
  assert (Hreach : Home.reachable (Home.initial Home.mockOutfits Store.accepted_init)
                                  (Home.step Home.SwipeRight Home.first_render)).
  { apply Home.reach_step; [apply Home.reach_init | exact I]. }
  destruct (one_call_in_flight _ _ _ Hreach) as (_ & _ & _ & H). exact H.
Defined.

Lemma handlers_only_write_flags_witness :
  map id (Home.outfits Home.revisited) = map id Home.mockOutfits.
Proof.
  destruct (handlers_only_write_flags Home.mockOutfits Store.accepted_init
              Home.revisited revisited_reachable) as (_ & H & _).
  exact H.
Defined.

Lemma next_ids_are_persisted_witness :
  In "1"%string (Home.acceptedIds Home.revisited) /\
  Store.has_id "1" (Home.accepted Home.revisited) = true.
Proof.
  assert (Hin : In "1"%string (Home.acceptedIds Home.revisited))
    by (vm_compute; left; reflexivity).
  split; [exact Hin |].
  exact (next_ids_are_persisted Home.mockOutfits Store.accepted_init Home.revisited
           mock_ids_unique mock_unflagged revisited_reachable "1"%string Hin).
Defined.

Lemma swipe_then_timeout_advances_witness :
  Home.idle Home.first_render /\
  Home.idle (Home.run [Home.SwipeLeft; Home.Timeout] Home.first_render).
Proof.
  assert (Hidle : Home.idle Home.first_render) by (split; reflexivity).
  split; [exact Hidle |].
  destruct (swipe_then_timeout_advances Home.first_render Home.SwipeLeft _
              Hidle eq_refl eq_refl) as (H & _).
  exact H.
Defined.

Lemma swiping_through_the_deck_witness :
  Home.idle Home.first_render /\
  Home.activeIndex
    (Home.run (Home.with_timeouts [Home.SwipeLeft; Home.SwipeRight; Home.SwipeLeft])
              Home.first_render) = 3.
Proof.
  assert (Hidle : Home.idle Home.first_render) by (split; reflexivity).
  split; [exact Hidle |].
  assert (Hrange : 0 <= Home.activeIndex Home.first_render
                   <= Js.length (Home.outfits Home.first_render) - 1)
    by (vm_compute; split; discriminate).
  destruct (swiping_through_the_deck
              [Home.SwipeLeft; Home.SwipeRight; Home.SwipeLeft] Home.first_render
              Hidle Hrange eq_refl) as (_ & H & _).
  rewrite H. reflexivity.
Defined.

Lemma undo_returns_to_the_card_witness :
  Home.isProcessing (Home.run [Home.SwipeRight; Home.Timeout] Home.first_render) = false /\
  Home.activeIndex
    (Home.undo (Home.run [Home.SwipeRight; Home.Timeout] Home.first_render)) = 0 /\
  option_map (fun o => (isAccepted o, isRejected o))
             (Js.get (Home.outfits
                        (Home.undo (Home.run [Home.SwipeRight; Home.Timeout]
                                             Home.first_render))) 0)
  = Some (Some false, Some false).
Proof.
  split; [reflexivity |].
  destruct (undo_returns_to_the_card
              (Home.run [Home.SwipeRight; Home.Timeout] Home.first_render)
              {| Home.index := 0; Home.action := Home.right |} _
              eq_refl eq_refl eq_refl)
    as (H & _ & _ & _ & _ & _ & (cleared & Hget & Hacc & Hrej & _)).
  split; [exact H |].
  change (Home.index {| Home.index := 0; Home.action := Home.right |}) with 0 in Hget.
  rewrite Hget. simpl. now rewrite Hacc, Hrej.
Defined.

Lemma undo_all_the_way_witness :
  Home.idle Home.first_render /\
  Home.history
    (Home.run (Home.with_timeouts [Home.SwipeLeft; Home.SwipeRight] ++
               Home.with_timeouts (repeat Home.Undo 2)) Home.first_render)
  = Home.history Home.first_render.
Proof.
  assert (Hidle : Home.idle Home.first_render) by (split; reflexivity).
  split; [exact Hidle |].
  assert (Hrange : 0 <= Home.activeIndex Home.first_render
                   <= Js.length (Home.outfits Home.first_render) - 1)
    by (vm_compute; split; discriminate).
  assert (Hne : [Home.SwipeLeft; Home.SwipeRight] <> []) by discriminate.
  destruct (undo_all_the_way [Home.SwipeLeft; Home.SwipeRight] Home.first_render
              Hidle Hrange eq_refl Hne) as (_ & H & _).
  exact H.
Defined.

Lemma card_stack_witness :
  Home.mockOutfits <> [] /\
  exists active,
    Js.get (Home.outfits Home.revisited) (Home.activeIndex Home.revisited) = Some active.
Proof.
  split; [exact mock_nonempty |].
  destruct (card_stack Home.mockOutfits Store.accepted_init Home.revisited
              mock_nonempty revisited_reachable) as (active & H & _).
  exists active. exact H.
Defined.

Lemma flagging_never_rerenders_a_card_witness :
  Home.activeIndex (Home.step Home.SwipeLeft Home.first_render)
  = Home.activeIndex Home.first_render /\
  Forall2 (fun p q => Card.propsAreEqual p q = true)
          (Render.cards Home.first_render)
          (Render.cards (Home.step Home.SwipeLeft Home.first_render)).
Proof.
  split; [reflexivity |].
  exact (flagging_never_rerenders_a_card Home.first_render Home.SwipeLeft eq_refl).
Defined.

Lemma background_and_prefetch_witness :
  Home.mockOutfits <> [] /\
  Home.prefetched Home.revisited = firstn 5 (map imageUri Home.mockOutfits).
Proof.
  split; [exact mock_nonempty |].
  exact (proj2 (background_and_prefetch Home.mockOutfits Store.accepted_init
                  Home.revisited (""%string, ""%string, ""%string)
                  mock_nonempty revisited_reachable)).
Defined.

Lemma empty_deck_is_inert_witness :
  Home.reachable (Home.initial [] Store.accepted_init) (Home.step Home.GoNext Home.nothing_to_show) /\
  Home.history (Home.step Home.GoNext Home.nothing_to_show) = [].
Proof.
  assert (Hreach : Home.reachable (Home.initial [] Store.accepted_init)
                                  (Home.step Home.GoNext Home.nothing_to_show)).
  { apply Home.reach_step; [apply Home.reach_init | exact I]. }
  split; [exact Hreach |].
  destruct (empty_deck_is_inert Store.accepted_init _
              (""%string, ""%string, ""%string) Hreach) as (_ & H & _).
  exact H.
Defined.

Lemma dragging_sets_the_labels_witness :
  (0 <? 402)%float = true /\
  Card.value_after Card.likeOpacity
    (Card.onPanResponderMove true 402 78.39 0) 0
  = 0x1.ffffffffffffep-1%float /\
  (1 <? Card.value_after Card.likeOpacity
          (Card.onPanResponderMove true 402 500 0) 0)%float = false.
Proof.
  assert (Hw : (0 <? 402)%float = true) by reflexivity.
  split; [exact Hw |]. split.
  - destruct (dragging_sets_the_labels 402 Hw 78.39 0 0 0 0 0)
      as (_ & _ & H & _).
    rewrite (proj1 (H eq_refl)). reflexivity.
  - destruct (dragging_sets_the_labels 402 Hw 500 0 0 0 0 0)
      as (_ & _ & _ & _ & _ & H & _).
    exact (proj2 H).
Defined.


Lemma carousel_offers_existing_items_witness :
  In (Arc.thumb Home.mockOutfits 0 3 3) (Render.carousel Home.first_render) /\
  Home.possible (Home.ItemPress 3) Home.first_render.
Proof.
  assert (Hin : In (Arc.thumb Home.mockOutfits 0 3 3) (Render.carousel Home.first_render)).
  { vm_compute. do 3 right. left. reflexivity. }
  split; [exact Hin |].
  destruct (carousel_offers_existing_items Home.first_render _ Hin) as (_ & H & _).
  exact H.
Defined.

Lemma window_shape_witness :
  0 <= 2 <= Js.length Home.mockOutfits - 1 /\
  List.length (Arc.render Home.mockOutfits 2) = 7%nat.
Proof.
  assert (Hidx : 0 <= 2 <= Js.length Home.mockOutfits - 1)
    by (vm_compute; split; discriminate).
  split; [exact Hidx |].
  destruct (window_shape Home.mockOutfits 2) as (_ & H).
  destruct (H Hidx) as (Hlen & _).
  apply Nat2Z.inj. rewrite Hlen. reflexivity.
Defined.

Lemma carousel_keys_distinct_witness :
  NoDup (map id Home.mockOutfits) /\
  NoDup (map Arc.key_of (Arc.render Home.mockOutfits 3)).
Proof.
  split; [exact mock_ids_unique |].
  exact (carousel_keys_distinct Home.mockOutfits 3 mock_ids_unique).
Defined.

Lemma carousel_badges_witness :
  In (Arc.thumb (Home.outfits Home.revisited) 0 0 0) (Render.carousel Home.revisited) /\
  Arc.badge_rejected (Arc.thumb (Home.outfits Home.revisited) 0 0 0) <> true.
Proof.
  assert (Hin : In (Arc.thumb (Home.outfits Home.revisited) 0 0 0)
                   (Render.carousel Home.revisited)).
  { vm_compute. left. reflexivity. }
  split; [exact Hin |].
  destruct (carousel_badges Home.mockOutfits Store.accepted_init Home.revisited _
              mock_exclusive revisited_reachable Hin) as (H & _).
  intros Hr. apply H. split; [reflexivity | exact Hr].
Defined.

End FurtherOnMockData.
